(** * Lucid Clinic: the dashboard frontend and the outreach core it drives

    A shallow embedding of the TypeScript sources of the repository (the API
    client [lib/api], the queue, campaign and agent pages) together with the
    parts of the outreach core that the specification describes but whose code
    is not among the sources (scoring, queue transitions, eligibility,
    campaign submission).  Definitions come first, the theorems follow. *)

From Stdlib Require Import ZArith NArith Ascii String Floats Uint63.
From stdpp Require Import gmap strings list pretty sorting.

Open Scope Z_scope.

(** ** JavaScript values *)

(** A JavaScript string is a sequence of UTF-16 code units. *)
Definition jsstring : Type := list N.

(** An ASCII literal of the source, as code units. *)
Definition js (s : string) : jsstring :=
  N_of_ascii <$> list_ascii_of_string s.

(** [Number.isSafeInteger]: an integer of magnitude at most 2^53 - 1. *)
Definition isSafeInteger (n : Z) : bool :=
  (- 9007199254740991 <=? n) && (n <=? 9007199254740991).

(** [String(n)] and [`${n}`] for a number that is a safe integer, which
    JavaScript prints in decimal with all its digits.  (Another number is
    printed otherwise: with an exponent from 1e21 on, with the shortest
    digits that identify the double above 2^53, and there are the fractions,
    [NaN] and the infinities; none of them is a value of this model.) *)
Definition String_of_int (n : Z) : jsstring := js (pretty n).

(** [String.prototype.isWellFormed]: no surrogate code unit stands alone.
    A well-formed string is what the conversion to a USV string, which
    [URLSearchParams] applies to a name and to a value, leaves as it is. *)
Fixpoint isWellFormed (s : jsstring) : bool :=
  match s with
  | [] => true
  | c :: s' =>
      if ((55296 <=? c) && (c <=? 56319))%N then
        match s' with
        | d :: s'' => ((56320 <=? d) && (d <=? 57343))%N && isWellFormed s''
        | [] => false
        end
      else negb ((56320 <=? c) && (c <=? 57343))%N && isWellFormed s'
  end.

(** JavaScript's [WhiteSpace] and [LineTerminator] code points, the ones
    [String.prototype.trim] strips. *)
Definition is_js_whitespace (c : N) : bool :=
  ((9 <=? c) && (c <=? 13) || (c =? 32) || (c =? 160) || (c =? 5760)
   || (8192 <=? c) && (c <=? 8202) || (c =? 8232) || (c =? 8233)
   || (c =? 8239) || (c =? 8287) || (c =? 12288) || (c =? 65279))%N.

Fixpoint trimStart (s : jsstring) : jsstring :=
  match s with
  | c :: s' => if is_js_whitespace c then trimStart s' else s
  | [] => []
  end.

Definition trimEnd (s : jsstring) : jsstring := reverse (trimStart (reverse s)).

Definition trim (s : jsstring) : jsstring := trimEnd (trimStart s).

(** Truthiness of a string: only the empty string is falsy. *)
Definition truthy (s : jsstring) : bool :=
  match s with [] => false | _ => true end.

(** [s || undefined] *)
Definition or_undefined (s : jsstring) : option jsstring :=
  if truthy s then Some s else None.

(** The value a JSON text denotes.  Numbers are IEEE-754 doubles. *)
#[local] Set Warnings "-register-all".
Inductive json : Type :=
  | JNull
  | JBool (b : bool)
  | JNum (x : float)
  | JStr (s : jsstring)
  | JArr (xs : list json)
  | JObj (members : list (jsstring * json)).

(** [JSON.stringify] of a number: [NaN] and the infinities become [null]. *)
Definition json_of_number (x : float) : json :=
  if PrimFloat.is_nan x || PrimFloat.is_infinity x then JNull else JNum x.

(** [JSON.stringify] of an object literal: a member whose value is
    [undefined] is left out. *)
Definition stringify_object (ms : list (jsstring * option json)) : json :=
  JObj (omap (λ kv, (λ v, (kv.1, v)) <$> kv.2) ms).

(** Does an object in [v] have a member named [k], at any depth? *)
Fixpoint mentions_key (k : jsstring) (v : json) : bool :=
  match v with
  | JArr xs => existsb (mentions_key k) xs
  | JObj ms =>
      existsb (λ kv, bool_decide (kv.1 = k) || mentions_key k kv.2) ms
  | _ => false
  end.


(** What an awaited promise gives: a value, or a thrown value.  A thrown
    value is seen by the pages only through [e instanceof Error] and
    [e.message]. *)
Record thrown : Type := Thrown {
  instanceof_Error : bool;
  message : jsstring;
}.

Inductive outcome (A : Type) : Type :=
  | Returns (a : A)
  | Throws (e : thrown).
Arguments Returns {A} a.
Arguments Throws {A} e.

(** [new Error(msg)] *)
Definition new_Error (msg : jsstring) : thrown :=
  {| instanceof_Error := true; message := msg |}.

(** [e instanceof Error ? e.message : fallback] *)
Definition message_or (fallback : jsstring) (e : thrown) : jsstring :=
  if instanceof_Error e then message e else fallback.

(** ** The API client, [lib/api] *)

Module Api.

Inductive method : Type := GET | POST | PATCH.

(** The request [fetch] is called with.  The query is kept as the entries
    of the [URLSearchParams] object, before it is serialised. *)
Record Request : Type := {
  req_method : method;
  req_path : jsstring;
  req_query : option (list (jsstring * jsstring));
  req_body : option json;
}.

(** The response [fetch] resolved with, its body already received:
    [res_text] is what [res.text()] gives and [res_json] what [res.json()]
    gives, a value or the rejection of a body that is not JSON. *)
Record Response : Type := {
  res_ok : bool;
  res_status : N;
  res_text : jsstring;
  res_json : outcome json;
}.

Definition fetchApi (res : Response) : outcome json :=
  if negb (res_ok res) then
    Throws (new_Error (js "API error " ++ js (pretty (res_status res))
                       ++ js ": " ++ res_text res))
  else res_json res.

(** A value of a [Record<string, string | number | boolean | undefined>]. *)
Inductive qvalue : Type :=
  | QStr (s : jsstring)
  | QNum (n : Z)
  | QBool (b : bool)
  | QUndefined.

Definition String_of_qvalue (v : qvalue) : option jsstring :=
  match v with
  | QStr s => Some s
  | QNum n => Some (String_of_int n)
  | QBool b => Some (js (if b then "true" else "false"))
  | QUndefined => None
  end.

(** The parameters whose query this model gives as the code does: the
    entries of an object, so with names that differ, where a name and a
    string are well formed and a number is a safe integer. *)
Definition plain_entry (kv : jsstring * qvalue) : bool :=
  isWellFormed kv.1
  && match kv.2 with
     | QStr s => isWellFormed s
     | QNum n => isSafeInteger n
     | _ => true
     end.

(** [if (v !== undefined && v !== "") qs.set(k, String(v))] over the
    object's entries, for entries that are [plain_entry] and differ in their
    names: then [set] finds no entry to replace and appends, and the name and
    the value are stored as they are. *)
Definition query_string (params : list (jsstring * qvalue))
  : list (jsstring * jsstring) :=
  omap (λ kv,
          match kv.2 with
          | QUndefined => None
          | QStr [] => None
          | v => (λ s, (kv.1, s)) <$> String_of_qvalue v
          end) params.

(** The argument of [createCampaign]. *)
Record CampaignData : Type := {
  cd_name : jsstring;
  cd_channel : jsstring;
  cd_tier_filter : option jsstring;
  cd_score_min : option float;
  cd_message_template : jsstring;
  cd_subject : option jsstring;
}.

(** One constructor per exported function that calls [fetchApi], with its
    arguments.  ([getScreenshotUrl] only builds a string.) *)
Inductive ApiCall : Type :=
  | getPatients (params : list (jsstring * qvalue))
  | getPatient (id : Z)
  | getQueue (params : list (jsstring * qvalue))
  | updateQueueStatus (id : Z) (status : jsstring)
  | getAnalyticsOverview
  | getContactCoverage
  | getAgentStatus
  | getAgentSessions (params : list (jsstring * qvalue))
  | getAgentSession (id : Z)
  | getSessionScreenshots (sessionId : Z)
  | submitAgentTask (taskType : jsstring)
      (params : list (jsstring * option json)) (confirmed : bool)
  | confirmAgentTask (sessionId : Z)
  | cancelAgentTask (sessionId : Z)
  | getCommsStatus
  | getCampaigns (params : list (jsstring * qvalue))
  | getCampaign (id : Z)
  | createCampaign (data : CampaignData)
  | sendCampaign (id : Z)
  | getCampaignMessages (campaignId : Z) (params : list (jsstring * qvalue)).

Definition get (path : jsstring) : Request :=
  {| req_method := GET; req_path := path; req_query := None;
     req_body := None |}.

Definition get_query (path : jsstring) (params : list (jsstring * qvalue))
  : Request :=
  {| req_method := GET; req_path := path;
     req_query := Some (query_string params); req_body := None |}.

Definition post (path : jsstring) (body : option json) : Request :=
  {| req_method := POST; req_path := path; req_query := None;
     req_body := body |}.

(** The request each exported function hands to [fetch]. *)
Definition request_of (c : ApiCall) : Request :=
  match c with
  | getPatients params => get_query (js "/api/patients") params
  | getPatient id => get (js "/api/patients/" ++ String_of_int id)
  | getQueue params => get_query (js "/api/queue") params
  | updateQueueStatus id status =>
      {| req_method := PATCH;
         req_path := js "/api/queue/" ++ String_of_int id ++ js "/status";
         req_query := None;
         req_body :=
           Some (stringify_object [(js "status", Some (JStr status))]) |}
  | getAnalyticsOverview => get (js "/api/analytics/overview")
  | getContactCoverage => get (js "/api/analytics/contact-coverage")
  | getAgentStatus => get (js "/api/agent/status")
  | getAgentSessions params => get_query (js "/api/agent/sessions") params
  | getAgentSession id =>
      get (js "/api/agent/sessions/" ++ String_of_int id)
  | getSessionScreenshots sessionId =>
      get (js "/api/agent/sessions/" ++ String_of_int sessionId
           ++ js "/screenshots")
  | submitAgentTask taskType params confirmed =>
      post (js "/api/agent/tasks")
        (Some (stringify_object
                 [(js "task_type", Some (JStr taskType));
                  (js "params", Some (stringify_object params));
                  (js "confirmed", Some (JBool confirmed))]))
  | confirmAgentTask sessionId =>
      post (js "/api/agent/tasks/" ++ String_of_int sessionId
            ++ js "/confirm") None
  | cancelAgentTask sessionId =>
      post (js "/api/agent/tasks/" ++ String_of_int sessionId
            ++ js "/cancel") None
  | getCommsStatus => get (js "/api/campaigns/status")
  | getCampaigns params => get_query (js "/api/campaigns") params
  | getCampaign id => get (js "/api/campaigns/" ++ String_of_int id)
  | createCampaign data =>
      post (js "/api/campaigns")
        (Some (stringify_object
                 [(js "name", Some (JStr (cd_name data)));
                  (js "channel", Some (JStr (cd_channel data)));
                  (js "tier_filter", JStr <$> cd_tier_filter data);
                  (js "score_min", json_of_number <$> cd_score_min data);
                  (js "message_template",
                    Some (JStr (cd_message_template data)));
                  (js "subject", JStr <$> cd_subject data)]))
  | sendCampaign id =>
      post (js "/api/campaigns/" ++ String_of_int id ++ js "/send") None
  | getCampaignMessages campaignId params =>
      get_query (js "/api/campaigns/" ++ String_of_int campaignId
                 ++ js "/messages") params
  end.



(** The [Campaign] read model. *)
Record Campaign : Type := {
  id : Z;
  name : jsstring;
  channel : jsstring;
  tier_filter : option jsstring;
  score_min : float;
  message_template : jsstring;
  subject : option jsstring;
  status : jsstring;
  total_recipients : float;
  sent_count : float;
  failed_count : float;
  responded_count : float;
  booked_count : float;
  created_at : option jsstring;
  sent_at : option jsstring;
}.

End Api.

(** ** Global replacement of a literal pattern *)

(** Is [p] a prefix of [s]? *)
Fixpoint starts_with (p s : jsstring) : bool :=
  match p, s with
  | [], _ => true
  | a :: p', b :: s' => (a =? b)%N && starts_with p' s'
  | _ :: _, [] => false
  end.

(** The scan of [s.replace(/p/g, v)] for a pattern [p] that is a non-empty
    literal and a replacement [v] without [$]: matches are taken leftmost and
    do not overlap.  [skip] counts the code units of the current match that
    are still to be passed over. *)
Fixpoint replace_scan (p v : jsstring) (skip : nat) (s : jsstring) : jsstring :=
  match s with
  | [] => []
  | c :: s' =>
      match skip with
      | S k => replace_scan p v k s'
      | O =>
          if starts_with p s
          then v ++ replace_scan p v (pred (length p)) s'
          else c :: replace_scan p v 0 s'
      end
  end.

Definition replace_g (p v s : jsstring) : jsstring := replace_scan p v 0 s.

(** The three placeholders.  In a regular expression without the [u] flag a
    brace that does not form a quantifier stands for itself, so
    [/{first_name}/g] matches the literal text. *)
Definition ph_first_name : jsstring := Eval cbv in js "{first_name}".
Definition ph_called_name : jsstring := Eval cbv in js "{called_name}".
Definition ph_last_name : jsstring := Eval cbv in js "{last_name}".

(** Modelled from the spec: the TemplateRenderer of section 4.4, whose code is
    not among the sources.  One pass over the template: a recognized
    placeholder is replaced by the recipient's value, every other code unit is
    copied, and substituted text is never scanned again. *)
Fixpoint render_scan (first called last : jsstring) (skip : nat)
    (s : jsstring) : jsstring :=
  match s with
  | [] => []
  | c :: s' =>
      match skip with
      | S k => render_scan first called last k s'
      | O =>
          if starts_with ph_first_name s then
            first ++ render_scan first called last
                       (pred (length ph_first_name)) s'
          else if starts_with ph_called_name s then
            called ++ render_scan first called last
                        (pred (length ph_called_name)) s'
          else if starts_with ph_last_name s then
            last ++ render_scan first called last
                      (pred (length ph_last_name)) s'
          else c :: render_scan first called last 0 s'
      end
  end.

Definition render_template (first called last template : jsstring) : jsstring :=
  render_scan first called last 0 template.

(** The three [replace] calls of the preview, one after the other, for any
    three values. *)
Definition replace_chain (first called last t : jsstring) : jsstring :=
  replace_g ph_last_name last
    (replace_g ph_called_name called (replace_g ph_first_name first t)).

(** ** The queue page *)

Module QueuePage.

Definition STATUSES : list jsstring :=
  [js "pending"; js "contacted"; js "responded"; js "booked"; js "dead"].

(** The page's state: the search parameters of its URL, and the two
    [useState] cells. *)
Record State : Type := {
  params : list (jsstring * jsstring);
  data : option json;
  error : jsstring;
}.

(** A plain object whose values are strings, as the list of its own
    properties in the order [Object.entries] gives them: the names that are
    array indices first, by ascending index, then the other names in the
    order they were created. *)
Fixpoint lookup_key (k : jsstring) (o : list (jsstring * jsstring))
  : option jsstring :=
  match o with
  | [] => None
  | (k', v) :: o' => if bool_decide (k' = k) then Some v else lookup_key k o'
  end.

Definition digit_value (c : N) : option N :=
  if ((48 <=? c) && (c <=? 57))%N then Some (c - 48)%N else None.

Fixpoint digits_value (acc : N) (s : jsstring) : option N :=
  match s with
  | [] => Some acc
  | c :: s' =>
      match digit_value c with
      | Some d => digits_value (10 * acc + d)%N s'
      | None => None
      end
  end.

(** The array index a property name stands for, if any: the name is the
    decimal form, without a leading zero, of an integer from 0 to
    2^32 - 2. *)
Definition array_index (k : jsstring) : option N :=
  match k with
  | [] => None
  | c :: k' =>
      if ((c =? 48) && negb (bool_decide (k' = [])))%N then None
      else match digits_value 0 k with
           | Some n => if (n <=? 4294967294)%N then Some n else None
           | None => None
           end
  end.

(** Writing a property the object has keeps its place. *)
Fixpoint replace_value (k v : jsstring) (o : list (jsstring * jsstring))
  : list (jsstring * jsstring) :=
  match o with
  | [] => []
  | (k', v') :: o' =>
      if bool_decide (k' = k) then (k, v) :: o'
      else (k', v') :: replace_value k v o'
  end.

(** A new property whose name is the array index [i] goes before the
    first property that is not an array index or has a larger one. *)
Fixpoint insert_index (i : N) (k v : jsstring)
    (o : list (jsstring * jsstring)) : list (jsstring * jsstring) :=
  match o with
  | [] => [(k, v)]
  | (k', v') :: o' =>
      match array_index k' with
      | Some j =>
          if (j <? i)%N then (k', v') :: insert_index i k v o'
          else (k, v) :: o
      | None => (k, v) :: o
      end
  end.

(** [filters[k] = v] on an object that inherits from [Object.prototype]:
    the name [__proto__] reaches the setter of the prototype, which ignores
    a string and creates no property; any other name is written, or created
    when the object does not have it. *)
Definition assign (k v : jsstring) (o : list (jsstring * jsstring))
  : list (jsstring * jsstring) :=
  if bool_decide (k = js "__proto__") then o
  else match lookup_key k o with
       | Some _ => replace_value k v o
       | None =>
           match array_index k with
           | Some i => insert_index i k v o
           | None => o ++ [(k, v)]
           end
       end.

(** The [filters] object [load] builds from the search parameters. *)
Definition filters_of (ps : list (jsstring * jsstring))
  : list (jsstring * jsstring) :=
  let filters := foldl (λ o kv, assign kv.1 kv.2 o) [] ps in
  match lookup_key (js "page") filters with
  | Some (_ :: _) => filters
  | _ => assign (js "page") (js "1") filters
  end.

Definition load_call (st : State) : Api.ApiCall :=
  Api.getQueue (prod_map id Api.QStr <$> filters_of (params st)).

(** [load], given what [getQueue] resolves or rejects with. *)
Definition load (queue : outcome json) (st : State) : State :=
  match queue with
  | Returns d => {| params := params st; data := Some d; error := error st |}
  | Throws e =>
      {| params := params st; data := data st; error := message e |}
  end.

(** The options of a row's dropdown. *)
Definition dropdown_options : list jsstring := STATUSES.

(** [handleStatusChange], given what the two requests resolve or reject
    with: the state it leaves and the API calls it made, in order. *)
Definition handleStatusChange (updated queue : outcome json)
    (id : Z) (newStatus : jsstring) (st : State)
  : State * list Api.ApiCall :=
  match updated with
  | Returns _ =>
      (load queue st, [Api.updateQueueStatus id newStatus; load_call st])
  | Throws e =>
      ({| params := params st; data := data st;
          error := message_or (js "Failed to update status") e |},
       [Api.updateQueueStatus id newStatus])
  end.

End QueuePage.

(** ** The campaign creation page *)

Module NewCampaignPage.

Inductive Channel : Type := sms | email.

Definition channel_name (c : Channel) : jsstring :=
  match c with sms => js "sms" | email => js "email" end.

Record State : Type := {
  name : jsstring;
  channel : Channel;
  tierFilter : jsstring;
  scoreMin : float;
  messageTemplate : jsstring;
  subject : jsstring;
  submitting : bool;
  error : jsstring;
}.

Definition set_error (e : jsstring) (st : State) : State :=
  {| name := name st; channel := channel st; tierFilter := tierFilter st;
     scoreMin := scoreMin st; messageTemplate := messageTemplate st;
     subject := subject st; submitting := submitting st; error := e |}.

Definition set_submitting (b : bool) (st : State) : State :=
  {| name := name st; channel := channel st; tierFilter := tierFilter st;
     scoreMin := scoreMin st; messageTemplate := messageTemplate st;
     subject := subject st; submitting := b; error := error st |}.

Inductive Effect : Type :=
  | Call (c : Api.ApiCall)
  | RouterPush (path : jsstring).

(** The object [handleSubmit] passes to [createCampaign]. *)
Definition campaign_data (st : State) : Api.CampaignData :=
  {| Api.cd_name := trim (name st);
     Api.cd_channel := channel_name (channel st);
     Api.cd_tier_filter := or_undefined (tierFilter st);
     Api.cd_score_min := Some (scoreMin st);
     Api.cd_message_template := messageTemplate st;
     Api.cd_subject :=
       match channel st with email => Some (subject st) | sms => None end |}.

(** [handleSubmit], given what [createCampaign] resolves or rejects with:
    the state it leaves and what it did, in order. *)
Definition handleSubmit (created : outcome Api.Campaign) (st : State)
  : State * list Effect :=
  if negb (truthy (trim (name st))) then
    (set_error (js "Campaign name is required") st, [])
  else if negb (truthy (trim (messageTemplate st))) then
    (set_error (js "Message template is required") st, [])
  else if match channel st with email => true | sms => false end
          && negb (truthy (trim (subject st))) then
    (set_error (js "Email subject is required") st, [])
  else
    let st1 := set_error [] (set_submitting true st) in
    let call := Call (Api.createCampaign (campaign_data st)) in
    match created with
    | Returns campaign =>
        (set_submitting false st1,
         [call;
          RouterPush (js "/campaigns/" ++ String_of_int (Api.id campaign))])
    | Throws e =>
        (set_submitting false
           (set_error (message_or (js "Failed to create campaign") e) st1),
         [call])
    end.

(** The preview of the template, rendered with the sample recipient. *)
Definition previewText (st : State) : jsstring :=
  replace_g ph_last_name (js "Smith")
    (replace_g ph_called_name (js "Johnny")
       (replace_g ph_first_name (js "John") (messageTemplate st))).

End NewCampaignPage.

(** ** The campaign detail page *)

(** The double that equals the integer [n], for [|n| < 2^53]. *)
Definition float_of_Z (n : Z) : float :=
  if n <? 0 then PrimFloat.opp (PrimFloat.of_uint63 (Uint63.of_Z (- n)))
  else PrimFloat.of_uint63 (Uint63.of_Z n).

(** [Math.round]: the integer closest to [x], the larger one at a tie; an
    infinity, a NaN or an integral [x] is returned as it is, and a result of
    zero keeps the sign of [x].  A finite double is [m * 2^e] exactly, so the
    integer is found with exact arithmetic on [m] and [e]. *)
Definition Math_round (x : float) : float :=
  match Prim2SF x with
  | S754_finite neg m e =>
      if 0 <=? e then x
      else
        let twice := if neg then - (2 * Z.pos m) else 2 * Z.pos m in
        let n := (twice + 2 ^ (- e)) / 2 ^ (- e + 1) in
        if n =? 0 then (if neg then PrimFloat.opp 0%float else 0%float)
        else float_of_Z n
  | _ => x
  end.

Module CampaignDetailPage.

Record State : Type := {
  id : Z;
  campaign : option Api.Campaign;
  messages : option json;
  error : jsstring;
  sending : bool;
  msgPage : Z;
  msgStatusFilter : jsstring;
}.

Definition load_calls (st : State) : list Api.ApiCall :=
  let msgParams :=
    [(js "page", Api.QNum (msgPage st)); (js "per_page", Api.QNum 25)]
    ++ (if truthy (msgStatusFilter st)
        then [(js "status", Api.QStr (msgStatusFilter st))] else []) in
  [Api.getCampaign (id st); Api.getCampaignMessages (id st) msgParams].

(** [load], given what [Promise.all] resolves or rejects with. *)
Definition load (loaded : outcome (Api.Campaign * json)) (st : State)
  : State :=
  match loaded with
  | Returns (c, m) =>
      {| id := id st; campaign := Some c; messages := Some m;
         error := error st; sending := sending st; msgPage := msgPage st;
         msgStatusFilter := msgStatusFilter st |}
  | Throws e =>
      {| id := id st; campaign := campaign st; messages := messages st;
         error := message e; sending := sending st; msgPage := msgPage st;
         msgStatusFilter := msgStatusFilter st |}
  end.

(** Is the Send Campaign button rendered? *)
Definition send_button_offered (c : Api.Campaign) : bool :=
  bool_decide (Api.status c = js "draft").

(** [handleSend], given what [sendCampaign] and the reload resolve or reject
    with: the state it leaves and the API calls it made, in order. *)
Definition handleSend (sent : outcome Api.Campaign)
    (loaded : outcome (Api.Campaign * json)) (st : State)
  : State * list Api.ApiCall :=
  match campaign st with
  | None => (st, [])
  | Some c =>
      match sent with
      | Returns updated =>
          (load loaded
             {| id := id st; campaign := Some updated;
                messages := messages st; error := [];
                sending := false; msgPage := msgPage st;
                msgStatusFilter := msgStatusFilter st |},
           Api.sendCampaign (Api.id c) :: load_calls st)
      | Throws e =>
          ({| id := id st; campaign := campaign st;
              messages := messages st;
              error := message_or (js "Failed to send campaign") e;
              sending := false; msgPage := msgPage st;
              msgStatusFilter := msgStatusFilter st |},
           [Api.sendCampaign (Api.id c)])
      end
  end.

(** A click on the Send Campaign button: it exists only while the page has
    a campaign whose status is draft, and is disabled while [sending]. *)
Definition click_send (sent : outcome Api.Campaign)
    (loaded : outcome (Api.Campaign * json)) (st : State)
  : State * list Api.ApiCall :=
  match campaign st with
  | Some c =>
      if send_button_offered c && negb (sending st)
      then handleSend sent loaded st else (st, [])
  | None => (st, [])
  end.

Definition deliveryRate (c : Api.Campaign) : float :=
  if (0 <? Api.sent_count c)%float then
    Math_round
      (((Api.sent_count c - Api.failed_count c) / Api.sent_count c) * 100)%float
  else 0%float.

Definition responseRate (c : Api.Campaign) : float :=
  if (0 <? Api.sent_count c)%float then
    Math_round ((Api.responded_count c / Api.sent_count c) * 100)%float
  else 0%float.

End CampaignDetailPage.

(** ** The agent page *)

Module AgentPage.

Record State : Type := {
  error : jsstring;
  submitting : bool;
  selectedTask : jsstring;
  accountId : jsstring;
  apptDate : jsstring;
  apptTime : jsstring;
  provider : jsstring;
  updateEmail : jsstring;
  updatePhone : jsstring;
  updateAddress : jsstring;
}.

Definition set_error_submitting (e : jsstring) (b : bool) (st : State)
  : State :=
  {| error := e; submitting := b; selectedTask := selectedTask st;
     accountId := accountId st; apptDate := apptDate st;
     apptTime := apptTime st; provider := provider st;
     updateEmail := updateEmail st; updatePhone := updatePhone st;
     updateAddress := updateAddress st |}.

(** [if (v.trim()) fields.k = v.trim()] *)
Definition field (k v : jsstring) : list (jsstring * json) :=
  if truthy (trim v) then [(k, JStr (trim v))] else [].

Definition buildParams (st : State) : list (jsstring * option json) :=
  if bool_decide (selectedTask st = js "sync_patients") then []
  else if bool_decide (selectedTask st = js "book_appointment") then
    [(js "patient_account_id", Some (JStr (accountId st)));
     (js "date", Some (JStr (apptDate st)));
     (js "time", JStr <$> or_undefined (apptTime st));
     (js "provider", JStr <$> or_undefined (provider st))]
  else if bool_decide (selectedTask st = js "update_record") then
    let fields :=
      field (js "email") (updateEmail st)
      ++ field (js "cell_phone") (updatePhone st)
      ++ field (js "address") (updateAddress st) in
    [(js "patient_account_id", Some (JStr (accountId st)));
     (js "fields", Some (JObj fields))]
  else [].

Definition load_calls : list Api.ApiCall :=
  [Api.getAgentStatus; Api.getAgentSessions [(js "per_page", Api.QNum 20)]].

(** The call [handleSubmit] makes: [sync_patients] is read-only so it is
    confirmed at once; the others need an explicit confirmation. *)
Definition submit_call (st : State) : Api.ApiCall :=
  let params := buildParams st in
  let autoConfirm := bool_decide (selectedTask st = js "sync_patients") in
  Api.submitAgentTask (selectedTask st) params autoConfirm.

(** [handleSubmit], given what [submitAgentTask] resolves or rejects with:
    the state it leaves and the API calls it made, in order. *)
Definition handleSubmit (submitted : outcome json) (st : State)
  : State * list Api.ApiCall :=
  match submitted with
  | Returns _ =>
      (set_error_submitting [] false st, submit_call st :: load_calls)
  | Throws e =>
      (set_error_submitting (message_or (js "Failed to submit task") e)
         false st,
       [submit_call st])
  end.

End AgentPage.

(** ** Every request the pages make *)

Module Frontend.

(** What happens on a page and makes it call the API: a mount or reload, or
    a handler run with the outcomes of its requests. *)
Inductive PageEvent : Type :=
  | DashboardMount
  | PatientsLoad (params : list (jsstring * jsstring))
  | PatientDetailMount (id : Z)
  | QueueLoad (st : QueuePage.State)
  | QueueStatusChange (updated queue : outcome json) (id : Z)
      (newStatus : jsstring) (st : QueuePage.State)
  | AgentLoad
  | AgentSubmit (submitted : outcome json) (st : AgentPage.State)
  | AgentSessionLoad (id : Z)
  | AgentSessionConfirm (id : Z)
  | AgentSessionCancel (id : Z)
  | CampaignsLoad (statusFilter channelFilter : jsstring)
  | CampaignDetailLoad (st : CampaignDetailPage.State)
  | CampaignSend (sent : outcome Api.Campaign)
      (loaded : outcome (Api.Campaign * json))
      (st : CampaignDetailPage.State)
  | CampaignCreate (created : outcome Api.Campaign)
      (st : NewCampaignPage.State).

Definition created_calls (es : list NewCampaignPage.Effect)
  : list Api.ApiCall :=
  omap (λ e, match e with
             | NewCampaignPage.Call c => Some c
             | NewCampaignPage.RouterPush _ => None
             end) es.

(** The API calls an event makes, in order (for the handlers of the agent
    session page, when the first request succeeds). *)
Definition calls_of (ev : PageEvent) : list Api.ApiCall :=
  match ev with
  | DashboardMount =>
      [Api.getAnalyticsOverview; Api.getContactCoverage;
       Api.getQueue [(js "per_page", Api.QNum 10);
                     (js "sort_by", Api.QStr (js "score"));
                     (js "sort_dir", Api.QStr (js "desc"))]]
  | PatientsLoad params =>
      [Api.getPatients (prod_map id Api.QStr <$> QueuePage.filters_of params)]
  | PatientDetailMount id => [Api.getPatient id]
  | QueueLoad st => [QueuePage.load_call st]
  | QueueStatusChange updated queue id newStatus st =>
      (QueuePage.handleStatusChange updated queue id newStatus st).2
  | AgentLoad => AgentPage.load_calls
  | AgentSubmit submitted st => (AgentPage.handleSubmit submitted st).2
  | AgentSessionLoad id =>
      [Api.getAgentSession id; Api.getSessionScreenshots id]
  | AgentSessionConfirm id =>
      [Api.confirmAgentTask id; Api.getAgentSession id;
       Api.getSessionScreenshots id]
  | AgentSessionCancel id =>
      [Api.cancelAgentTask id; Api.getAgentSession id;
       Api.getSessionScreenshots id]
  | CampaignsLoad statusFilter channelFilter =>
      [Api.getCampaigns
         ((if truthy statusFilter
           then [(js "status", Api.QStr statusFilter)] else [])
          ++ (if truthy channelFilter
              then [(js "channel", Api.QStr channelFilter)] else []));
       Api.getCommsStatus]
  | CampaignDetailLoad st => CampaignDetailPage.load_calls st
  | CampaignSend sent loaded st =>
      (CampaignDetailPage.click_send sent loaded st).2
  | CampaignCreate created st =>
      created_calls (NewCampaignPage.handleSubmit created st).2
  end.

End Frontend.

(** ** The outreach core *)

(** The code of the core (the backend) is not among the sources.  Its data
    model and operations are modelled from the specification, sections 3, 4
    and 7. *)

Module Core.

(** Modelled from the spec: the enumerations of section 3. *)
Inductive Tier : Type := active | warm | cool | cold | dormant.
Inductive Channel : Type := sms | email.
Inductive QueueStatus : Type :=
  pending | contacted | responded | booked | dead.
Inductive CampaignStatus : Type := draft | sending | sent | failed.
Inductive MessageStatus : Type :=
  | msg_pending | msg_sent | msg_delivered
  | msg_failed | msg_bounced | msg_blocked.

(** The error taxonomy of section 7, as far as these operations raise it.
    The spec names no error for an id that is not on record; [NotFound]
    stands for it. *)
Inductive Error : Type :=
  | ValidationError | InvalidTransition | AlreadySending | NotFound.

#[global] Instance Tier_eq_dec : EqDecision Tier.
Proof. solve_decision. Defined.
#[global] Instance Channel_eq_dec : EqDecision Channel.
Proof. solve_decision. Defined.
#[global] Instance QueueStatus_eq_dec : EqDecision QueueStatus.
Proof. solve_decision. Defined.
#[global] Instance CampaignStatus_eq_dec : EqDecision CampaignStatus.
Proof. solve_decision. Defined.

(** Modelled from the spec: the Patient snapshot of section 3.  Dates are
    counted in whole months: the spec gives every recency boundary in months
    or years and fixes no calendar convention below that. *)
Record Patient : Type := {
  p_id : Z;
  p_account_id : jsstring;
  p_cell_phone : option jsstring;
  p_email : option jsstring;
  p_alt_phone : option jsstring;
  p_is_dnc : bool;
  p_last_appt : option Z;
  p_total_visits : Z;
  p_has_insurance : bool;
}.

(** Modelled from the spec: the ScoreResult of section 3. *)
Record ScoreResult : Type := {
  score : Z;
  tier : Tier;
}.

(** *** ScoringEngine *)

Inductive RecencyBand : Type :=
  | under_6mo | from_6_to_12mo | from_1_to_2y
  | from_2_to_3y | from_3_to_5y | over_5y.

(** Modelled from the spec: the recency band of section 4.1; no last
    appointment on file counts as the 5y+ band. *)
Definition recency_band (as_of : Z) (last_appt : option Z) : RecencyBand :=
  match last_appt with
  | None => over_5y
  | Some d =>
      let months := as_of - d in
      if months <? 6 then under_6mo
      else if months <? 12 then from_6_to_12mo
      else if months <? 24 then from_1_to_2y
      else if months <? 36 then from_2_to_3y
      else if months <? 60 then from_3_to_5y
      else over_5y
  end.

Definition recency_points (b : RecencyBand) : Z :=
  match b with
  | under_6mo => 40
  | from_6_to_12mo => 35
  | from_1_to_2y => 28
  | from_2_to_3y => 18
  | from_3_to_5y => 10
  | over_5y => 2
  end.

(** Modelled from the spec: the tier is a function of the recency band
    alone.  The spec leaves the mapping to the project notes; the bands are
    the ones the campaign form shows next to each tier (warm 6-12 months,
    cool 1-2 years, cold 2-5 years, dormant 5+ years). *)
Definition tier_of_band (b : RecencyBand) : Tier :=
  match b with
  | under_6mo => active
  | from_6_to_12mo => warm
  | from_1_to_2y => cool
  | from_2_to_3y => cold
  | from_3_to_5y => cold
  | over_5y => dormant
  end.

Definition visit_points (visits : Z) : Z :=
  if 20 <=? visits then 10
  else if 10 <=? visits then 7
  else if 5 <=? visits then 4
  else 0.

Definition points_if (b : bool) (n : Z) : Z := if b then n else 0.

Definition has {A} (o : option A) : bool :=
  match o with Some _ => true | None => false end.

Definition clamp (lo hi x : Z) : Z := Z.max lo (Z.min hi x).

(** Modelled from the spec: the additive point system of section 4.1, the
    DNC penalty applied after the additive factors and before clamping. *)
Definition ScoringEngine (as_of : Z) (p : Patient) : ScoreResult :=
  let band := recency_band as_of (p_last_appt p) in
  let additive :=
    recency_points band
    + points_if (has (p_email p)) 20
    + points_if (has (p_cell_phone p)) 15
    + points_if (has (p_alt_phone p)) 5
    + visit_points (p_total_visits p)
    + points_if (p_has_insurance p) 8 in
  let penalties :=
    points_if (p_is_dnc p) 30
    + points_if (negb (has (p_email p)) && negb (has (p_cell_phone p))
                 && negb (has (p_alt_phone p))) 15 in
  {| score := clamp 0 100 (additive - penalties);
     tier := tier_of_band band |}.

(** *** The records the core owns *)

(** Modelled from the spec: the QueueItem of section 3, with its denormalized
    contact snapshot. *)
Record QueueItem : Type := {
  q_id : Z;
  q_patient_id : Z;
  q_cell_phone : option jsstring;
  q_email : option jsstring;
  q_tier : Tier;
  q_score : Z;
  q_status : QueueStatus;
  q_contact_attempts : Z;
  q_last_contacted_at : option Z;
}.

(** Modelled from the spec: the Campaign of section 3. *)
Record Campaign : Type := {
  c_id : Z;
  c_channel : Channel;
  c_tier_filter : option Tier;
  c_score_min : Z;
  c_message_template : jsstring;
  c_subject : option jsstring;
  c_status : CampaignStatus;
  c_total_recipients : Z;
  c_sent_count : Z;
  c_failed_count : Z;
  c_responded_count : Z;
  c_booked_count : Z;
}.

(** Modelled from the spec: the OutreachMessage of section 3, as far as
    eligibility and submission read or write it. *)
Record OutreachMessage : Type := {
  m_campaign_id : Z;
  m_queue_item_id : Z;
  m_patient_id : Z;
  m_recipient : option jsstring;
  m_status : MessageStatus;
  m_external_id : option jsstring;
  m_is_opt_out : bool;
}.

(** Modelled from the spec: the records the core reads and writes, patients
    by id, queue items by id, campaigns by id, and the messages in the order
    of their creation. *)
Record Store : Type := {
  patients : gmap Z Patient;
  queue : gmap Z QueueItem;
  campaigns : gmap Z Campaign;
  messages : list OutreachMessage;
}.

(** *** QueueManager *)

(** The name of a status on the wire and in the queue page's dropdown. *)
Definition status_name (s : QueueStatus) : jsstring :=
  match s with
  | pending => js "pending"
  | contacted => js "contacted"
  | responded => js "responded"
  | booked => js "booked"
  | dead => js "dead"
  end.

(** Modelled from the spec: the legal transitions of section 4.2. *)
Definition legal_transition (from to : QueueStatus) : bool :=
  match from, to with
  | pending, contacted => true
  | contacted, responded => true
  | responded, booked => true
  | _, dead => true
  | _, _ => false
  end.

Definition with_status (s : QueueStatus) (q : QueueItem) : QueueItem :=
  {| q_id := q_id q; q_patient_id := q_patient_id q;
     q_cell_phone := q_cell_phone q; q_email := q_email q;
     q_tier := q_tier q; q_score := q_score q; q_status := s;
     q_contact_attempts := q_contact_attempts q;
     q_last_contacted_at := q_last_contacted_at q |}.

Definition with_queue (qs : gmap Z QueueItem) (st : Store) : Store :=
  {| patients := patients st; queue := qs; campaigns := campaigns st;
     messages := messages st |}.

(** Modelled from the spec: [setStatus] of section 4.2; an illegal
    transition fails with [InvalidTransition] and has no side effect. *)
Definition setStatus (queue_item_id : Z) (new_status : QueueStatus)
    (st : Store) : Store * (Error + QueueItem) :=
  match queue st !! queue_item_id with
  | None => (st, inl NotFound)
  | Some q =>
      if legal_transition (q_status q) new_status then
        let q' := with_status new_status q in
        (with_queue (<[queue_item_id := q']> (queue st)) st, inr q')
      else (st, inl InvalidTransition)
  end.

(** *** EligibilityResolver *)

(** Has the patient a prior message with [is_opt_out] set? *)
Definition opted_out (st : Store) (patient_id : Z) : bool :=
  existsb (λ m, bool_decide (m_patient_id m = patient_id) && m_is_opt_out m)
    (messages st).

Definition contact_address (ch : Channel) (p : Patient) : option jsstring :=
  match ch with
  | sms => p_cell_phone p
  | email => p_email p
  end.

(** Modelled from the spec: the conjunction of section 4.3. *)
Definition eligible (st : Store) (c : Campaign) (q : QueueItem) : bool :=
  (bool_decide (q_status q = pending) || bool_decide (q_status q = contacted))
  && match c_tier_filter c with
     | None => true
     | Some t => bool_decide (q_tier q = t)
     end
  && (c_score_min c <=? q_score q)
  && match patients st !! q_patient_id q with
     | Some p =>
         negb (p_is_dnc p)
         && negb (opted_out st (q_patient_id q))
         && has (contact_address (c_channel c) p)
     | None => false
     end.

(** Descending score, then ascending patient id. *)
Definition precedes (a b : QueueItem) : Prop :=
  q_score b < q_score a
  ∨ (q_score a = q_score b ∧ q_patient_id a ≤ q_patient_id b).

#[global] Instance precedes_dec : RelDecision precedes.
Proof. intros a b. unfold precedes. apply _. Defined.

(** Modelled from the spec: the recipient set of section 4.3, an ordered
    snapshot of the eligible queue items. *)
Definition resolve (st : Store) (c : Campaign) : list QueueItem :=
  merge_sort precedes
    (filter (λ q, Is_true (eligible st c q)) (map_to_list (queue st)).*2).

(** *** DispatchCoordinator *)

Definition message_for (st : Store) (c : Campaign) (q : QueueItem)
  : OutreachMessage :=
  {| m_campaign_id := c_id c; m_queue_item_id := q_id q;
     m_patient_id := q_patient_id q;
     m_recipient :=
       patients st !! q_patient_id q ≫= contact_address (c_channel c);
     m_status := msg_pending; m_external_id := None;
     m_is_opt_out := false |}.

Definition entering (s : CampaignStatus) (recipients : Z) (c : Campaign)
  : Campaign :=
  {| c_id := c_id c; c_channel := c_channel c;
     c_tier_filter := c_tier_filter c; c_score_min := c_score_min c;
     c_message_template := c_message_template c; c_subject := c_subject c;
     c_status := s; c_total_recipients := recipients;
     c_sent_count := c_sent_count c; c_failed_count := c_failed_count c;
     c_responded_count := c_responded_count c;
     c_booked_count := c_booked_count c |}.

(** Modelled from the spec: [submit] of section 4.5, one atomic
    compare-and-swap on the campaign's status.  The winner resolves the
    recipients, fixes [total_recipients] and creates one pending message per
    recipient; any other caller fails with [AlreadySending]. *)
Definition submit (campaign_id : Z) (st : Store)
  : Store * (Error + list OutreachMessage) :=
  match campaigns st !! campaign_id with
  | None => (st, inl NotFound)
  | Some c =>
      match c_status c with
      | draft =>
          let recipients := resolve st c in
          let created := message_for st c <$> recipients in
          ({| patients := patients st; queue := queue st;
              campaigns :=
                <[campaign_id :=
                    entering sending (Z.of_nat (length recipients)) c]>
                  (campaigns st);
              messages := messages st ++ created |},
           inr created)
      | _ => (st, inl AlreadySending)
      end
  end.

(** Modelled from the spec: the end of dispatch, [sending] to [sent] or
    [failed]. *)
Definition complete (campaign_id : Z) (started : bool) (st : Store)
  : Store * (Error + unit) :=
  match campaigns st !! campaign_id with
  | None => (st, inl NotFound)
  | Some c =>
      match c_status c with
      | sending =>
          ({| patients := patients st; queue := queue st;
              campaigns :=
                <[campaign_id :=
                    entering (if started then sent else failed)
                      (c_total_recipients c) c]> (campaigns st);
              messages := messages st |},
           inr ())
      | _ => (st, inl InvalidTransition)
      end
  end.

(** Modelled from the spec: the requests that reach the core.  Each is one
    atomic operation of the store (section 5), so concurrent callers are
    serialised and a run is a sequence of requests. *)
Inductive Event : Type :=
  | Submit (campaign_id : Z)
  | Complete (campaign_id : Z) (started : bool)
  | SetStatus (queue_item_id : Z) (new_status : QueueStatus).

Definition succeeded {A} (r : Error + A) : bool :=
  match r with inr _ => true | inl _ => false end.

(** One event: the store it leaves, and whether it succeeded. *)
Definition step (ev : Event) (st : Store) : Store * bool :=
  match ev with
  | Submit i => let r := submit i st in (r.1, succeeded r.2)
  | Complete i b => let r := complete i b st in (r.1, succeeded r.2)
  | SetStatus i s => let r := setStatus i s st in (r.1, succeeded r.2)
  end.

(** A run: the final store, and each event with its success. *)
Fixpoint run (evs : list Event) (st : Store)
  : Store * list (Event * bool) :=
  match evs with
  | [] => (st, [])
  | ev :: evs' =>
      let r := step ev st in
      let rest := run evs' r.1 in
      (rest.1, (ev, r.2) :: rest.2)
  end.

(** Campaign [i], if on record, has left [draft]. *)
Definition left_draft (i : Z) (st : Store) : Prop :=
  ∀ c, campaigns st !! i = Some c → c_status c ≠ draft.

(** How many submits of campaign [i] won the draft-to-sending transition. *)
Definition is_win (i : Z) (eb : Event * bool) : bool :=
  match eb with
  | (Submit j, true) => bool_decide (j = i)
  | _ => false
  end.

Definition wins (i : Z) (log : list (Event * bool)) : nat :=
  length (filter (λ eb, Is_true (is_win i eb)) log).

End Core.

(** ** The core behind the dashboard *)

(** The routes that take the requests of the API client to the core are not
    among the sources either.  What a request does to the store is modelled
    from sections 4.6 and 6 of the specification. *)

Module Backend.

(** Modelled from the spec: the status a queue status update names
    (section 6, [{queue_item_id, new_status}]), one of the five of section 3. *)
Definition status_of_name (s : jsstring) : option Core.QueueStatus :=
  List.find (λ q, bool_decide (Core.status_name q = s))
    [Core.pending; Core.contacted; Core.responded; Core.booked; Core.dead].

(** An id above every id on record. *)
Definition next_id {A} (m : gmap Z A) : Z :=
  1 + map_fold (λ i _ above, Z.max i above) 0 m.

(** Modelled from the spec: a campaign is created in [draft] (section 3),
    its counters at zero. *)
Definition as_draft (id : Z) (c : Core.Campaign) : Core.Campaign :=
  {| Core.c_id := id; Core.c_channel := Core.c_channel c;
     Core.c_tier_filter := Core.c_tier_filter c;
     Core.c_score_min := Core.c_score_min c;
     Core.c_message_template := Core.c_message_template c;
     Core.c_subject := Core.c_subject c;
     Core.c_status := Core.draft; Core.c_total_recipients := 0;
     Core.c_sent_count := 0; Core.c_failed_count := 0;
     Core.c_responded_count := 0; Core.c_booked_count := 0 |}.

Definition with_dnc (p : Core.Patient) : Core.Patient :=
  {| Core.p_id := Core.p_id p; Core.p_account_id := Core.p_account_id p;
     Core.p_cell_phone := Core.p_cell_phone p; Core.p_email := Core.p_email p;
     Core.p_alt_phone := Core.p_alt_phone p; Core.p_is_dnc := true;
     Core.p_last_appt := Core.p_last_appt p;
     Core.p_total_visits := Core.p_total_visits p;
     Core.p_has_insurance := Core.p_has_insurance p |}.

Definition with_opt_out (m : Core.OutreachMessage) : Core.OutreachMessage :=
  {| Core.m_campaign_id := Core.m_campaign_id m;
     Core.m_queue_item_id := Core.m_queue_item_id m;
     Core.m_patient_id := Core.m_patient_id m;
     Core.m_recipient := Core.m_recipient m;
     Core.m_status := Core.m_status m;
     Core.m_external_id := Core.m_external_id m; Core.m_is_opt_out := true |}.

Definition has_external_id (external_id : jsstring)
    (m : Core.OutreachMessage) : bool :=
  bool_decide (Core.m_external_id m = Some external_id).

Fixpoint mark_opt_out (external_id : jsstring)
    (ms : list Core.OutreachMessage) : list Core.OutreachMessage :=
  match ms with
  | [] => []
  | m :: ms' =>
      if has_external_id external_id m then with_opt_out m :: ms'
      else m :: mark_opt_out external_id ms'
  end.

(** Modelled from the spec: the ReconciliationHandler on an [opt_out] event
    (section 4.6).  The message is looked up by its [external_id]; an event
    for no message on record is discarded; otherwise the message gets
    [is_opt_out = true] and its patient [is_dnc = true], in one step. *)
Definition opt_out (external_id : jsstring) (st : Core.Store) : Core.Store :=
  match List.find (has_external_id external_id) (Core.messages st) with
  | None => st
  | Some m =>
      {| Core.patients :=
           alter with_dnc (Core.m_patient_id m) (Core.patients st);
         Core.queue := Core.queue st; Core.campaigns := Core.campaigns st;
         Core.messages := mark_opt_out external_id (Core.messages st) |}
  end.

Section Decode.

(** The specification rejects a malformed campaign spec with
    [ValidationError] and does not say which specs are malformed: the
    operations are given for any reading [decode] of the request's data as
    the fields of a campaign, [None] for a spec that is rejected. *)
Variable decode : Api.CampaignData → option Core.Campaign.

(** Modelled from the spec: campaign creation (sections 3, 6 and 7); a
    malformed spec is rejected before any state change. *)
Definition create (data : Api.CampaignData) (st : Core.Store)
  : Core.Store * (Core.Error + Core.Campaign) :=
  match decode data with
  | None => (st, inl Core.ValidationError)
  | Some c =>
      let c' := as_draft (next_id (Core.campaigns st)) c in
      ({| Core.patients := Core.patients st; Core.queue := Core.queue st;
          Core.campaigns := <[Core.c_id c' := c']> (Core.campaigns st);
          Core.messages := Core.messages st |},
       inr c')
  end.

(** Modelled from the spec: what a request of the API client does to the
    store.  The dashboard writes through campaign creation, the submission
    of a campaign and queue status updates (sections 4.5 and 6); a status
    update that names none of the five statuses changes nothing.  The core
    does not run agent tasks (section 6), and a GET reads. *)
Definition serve (call : Api.ApiCall) (st : Core.Store) : Core.Store :=
  match call with
  | Api.updateQueueStatus id status =>
      match status_of_name status with
      | Some s => (Core.setStatus id s st).1
      | None => st
      end
  | Api.createCampaign data => (create data st).1
  | Api.sendCampaign id => (Core.submit id st).1
  | Api.submitAgentTask _ _ _ | Api.confirmAgentTask _
  | Api.cancelAgentTask _ => st
  | Api.getPatients _ | Api.getPatient _ | Api.getQueue _
  | Api.getAnalyticsOverview | Api.getContactCoverage | Api.getAgentStatus
  | Api.getAgentSessions _ | Api.getAgentSession _
  | Api.getSessionScreenshots _ | Api.getCommsStatus | Api.getCampaigns _
  | Api.getCampaign _ | Api.getCampaignMessages _ _ => st
  end.

(** What happens to the store: a call of an exported function of the API
    client, with any arguments; an event of a page, whose requests arrive in
    the order the page makes them; the end of a dispatch; an [opt_out] event
    of a provider. *)
Inductive Step : Type :=
  | Request (call : Api.ApiCall)
  | Page (ev : Frontend.PageEvent)
  | DispatchDone (campaign_id : Z) (started : bool)
  | OptOut (external_id : jsstring).

Definition step (s : Step) (st : Core.Store) : Core.Store :=
  match s with
  | Request call => serve call st
  | Page ev => foldl (λ st call, serve call st) st (Frontend.calls_of ev)
  | DispatchDone i started => (Core.complete i started st).1
  | OptOut external_id => opt_out external_id st
  end.

Definition run (steps : list Step) (st : Core.Store) : Core.Store :=
  foldl (λ st s, step s st) st steps.

End Decode.


End Backend.

(** ** The rates in exact arithmetic, and sample data *)

(** The integer nearest to [num / den] for a positive [den], the larger one
    at a tie. *)
Definition round_nearest (num den : Z) : Z := (2 * num + den) / (2 * den).

(** The rate as a formula over the integers: [round(100 * k / n)]. *)
Definition exact_rate (k n : Z) : Z := round_nearest (100 * k) n.

(** A campaign read model with the given counters. *)
Definition campaign_with_counts (sent failed responded : float)
  : Api.Campaign :=
  {| Api.id := 7; Api.name := js "February Warm Patient Outreach";
     Api.channel := js "sms"; Api.tier_filter := Some (js "warm");
     Api.score_min := 0%float;
     Api.message_template := js "Hi {called_name}, reply YES to schedule.";
     Api.subject := None; Api.status := js "sent";
     Api.total_recipients := sent; Api.sent_count := sent;
     Api.failed_count := failed; Api.responded_count := responded;
     Api.booked_count := 0%float; Api.created_at := None;
     Api.sent_at := None |}.

(** Is [100 * k / n] exactly halfway between two integers? *)
Definition is_tie (k n : Z) : bool := (200 * k) `mod` (2 * n) =? n.

(** For integer counters: the displayed delivery rate is the exact rate, or
    the exact value is a tie. *)
Definition displayed_rate_agrees (sent failed : Z) : bool :=
  is_tie (sent - failed) sent
  || (CampaignDetailPage.deliveryRate
        (campaign_with_counts (float_of_Z sent) (float_of_Z failed) 0)
      =? float_of_Z (exact_rate (sent - failed) sent))%float.

(** ** URL search parameters *)

(** The entries of a [URLSearchParams] object, in order; a name may occur
    more than once.  The pages get them parsed from the URL, so the copy
    [new URLSearchParams(params.toString())] has the same entries. *)
Module URLSearchParams.

(** [get(name)]: the value of the first entry with that name. *)
Fixpoint get (name : jsstring) (l : list (jsstring * jsstring))
  : option jsstring :=
  match l with
  | [] => None
  | (k, v) :: l' => if bool_decide (k = name) then Some v else get name l'
  end.

(** [delete(name)]: every entry with that name is removed. *)
Definition delete (name : jsstring) (l : list (jsstring * jsstring))
  : list (jsstring * jsstring) :=
  filter (λ kv, kv.1 ≠ name) l.

(** [set(name, value)]: the first entry with that name gets the value and the
    others are removed; without such an entry, one is appended. *)
Fixpoint set (name value : jsstring) (l : list (jsstring * jsstring))
  : list (jsstring * jsstring) :=
  match l with
  | [] => [(name, value)]
  | (k, v) :: l' =>
      if bool_decide (k = name) then (name, value) :: delete name l'
      else (k, v) :: set name value l'
  end.

End URLSearchParams.

(** ** The filter bar of the patients page *)

Module FilterBar.

(** [push(key, value)]: the search parameters of the URL it navigates to. *)
Definition push (key value : jsstring) (params : list (jsstring * jsstring))
  : list (jsstring * jsstring) :=
  let sp :=
    if truthy value then URLSearchParams.set key value params
    else URLSearchParams.delete key params in
  URLSearchParams.set (js "page") (js "1") sp.

(** [defaultChecked] of the insurance checkbox. *)
Definition insurance_checked (params : list (jsstring * jsstring)) : bool :=
  bool_decide
    (URLSearchParams.get (js "has_insurance") params = Some (js "true")).

(** [onChange] of the insurance checkbox. *)
Definition toggle_insurance (checked : bool)
    (params : list (jsstring * jsstring)) : list (jsstring * jsstring) :=
  push (js "has_insurance") (if checked then js "true" else []) params.

End FilterBar.

(** ** The patients page *)

Module PatientsPage.

(** The call of the page's effect, for the search parameters of its URL. *)
Definition load_call (params : list (jsstring * jsstring)) : Api.ApiCall :=
  Api.getPatients (prod_map id Api.QStr <$> QueuePage.filters_of params).

End PatientsPage.

(** ** The pagination bar *)

(** The least integer that is not below [a / b], for a positive [b]. *)
Definition ceil_div (a b : Z) : Z := - ((- a) / b).

(** The numbers the bar works with are counts and page numbers: integers far
    below 2^53, on which the sums, products, comparisons and [Math.min] of
    doubles are exact, and [Math.ceil] of the rounded quotient of two of them
    is the ceiling of the exact quotient.  They are modelled as integers, for
    a positive [perPage]. *)
Module Pagination.

Definition totalPages (total perPage : Z) : Z := ceil_div total perPage.


(** What the bar shows: the range of items, and which buttons are disabled. *)
Record View : Type := {
  showing_from : Z;
  showing_to : Z;
  prev_disabled : bool;
  next_disabled : bool;
}.

(** The component: nothing when there is at most one page. *)
Definition render (total page perPage : Z) : option View :=
  if totalPages total perPage <=? 1 then None
  else
    Some {| showing_from := (page - 1) * perPage + 1;
            showing_to := Z.min (page * perPage) total;
            prev_disabled := page <=? 1;
            next_disabled := totalPages total perPage <=? page |}.

End Pagination.

(** ** The message log of the campaign detail page *)

(** [total] is [messages.total], a count of messages. *)
Module MessageLog.



Definition prev_disabled (st : CampaignDetailPage.State) : bool :=
  CampaignDetailPage.msgPage st <=? 1.

Definition next_disabled (total : Z) (st : CampaignDetailPage.State) : bool :=
  total <=? CampaignDetailPage.msgPage st * 25.

(** The range the bar shows. *)
Definition showing_from (st : CampaignDetailPage.State) : Z :=
  (CampaignDetailPage.msgPage st - 1) * 25 + 1.

Definition showing_to (total : Z) (st : CampaignDetailPage.State) : Z :=
  Z.min (CampaignDetailPage.msgPage st * 25) total.




End MessageLog.

(** ** The sidebar *)

Module Sidebar.

(** The [href] and the label of each entry of [nav]. *)
Definition nav : list (jsstring * jsstring) :=
  [(js "/", js "Dashboard"); (js "/patients", js "Patients");
   (js "/queue", js "Re-engage Queue"); (js "/campaigns", js "Campaigns");
   (js "/agent", js "Agent")].

(** Is the entry highlighted for this pathname? *)
Definition active (pathname : jsstring) (item : jsstring * jsstring) : bool :=
  if bool_decide (item.1 = js "/") then bool_decide (pathname = js "/")
  else starts_with item.1 pathname.

Definition active_items (pathname : jsstring) : list (jsstring * jsstring) :=
  List.filter (active pathname) nav.

End Sidebar.

(** ** A session on the queue page *)

Module QueueSession.

(** What happens on the page, with the outcomes of the requests. *)
Inductive Event : Type :=
  | Load (queue : outcome json)
  | StatusChange (updated queue : outcome json) (id : Z)
      (newStatus : jsstring).

Definition step (st : QueuePage.State) (ev : Event) : QueuePage.State :=
  match ev with
  | Load queue => QueuePage.load queue st
  | StatusChange updated queue id newStatus =>
      (QueuePage.handleStatusChange updated queue id newStatus st).1
  end.

Definition run (evs : list Event) (st : QueuePage.State) : QueuePage.State :=
  foldl step st evs.

Definition returned {A} (o : outcome A) : bool :=
  match o with Returns _ => true | Throws _ => false end.

(** Did every request of the event that was made succeed? *)
Definition succeeded (ev : Event) : bool :=
  match ev with
  | Load queue => returned queue
  | StatusChange updated queue _ _ => returned updated && returned queue
  end.

End QueueSession.

(** * Theorems *)

(** ** Scanning and replacing *)

Section Replace.

Implicit Types p v q w s : jsstring.

Lemma starts_with_drop p s :
  starts_with p s = true → s = p ++ drop (length p) s.
Proof.
  revert s. induction p as [|a p IH]; intros [|b s] H; simpl in *; try done.
  apply andb_true_iff in H as [Hab H].
  apply N.eqb_eq in Hab. subst b. f_equal. by apply IH.
Qed.

Lemma starts_with_app p s : starts_with p (p ++ s) = true.
Proof.
  induction p as [|a p IH]; simpl; [done|].
  by rewrite N.eqb_refl, IH.
Qed.

Lemma replace_scan_drop p v k s :
  replace_scan p v k s = replace_scan p v 0 (drop k s).
Proof. revert s. induction k; intros [|c s]; simpl; auto. Qed.

Lemma replace_g_hit p v s :
  p ≠ [] → starts_with p s = true →
  replace_g p v s = v ++ replace_g p v (drop (length p) s).
Proof.
  intros Hp H. destruct s as [|c s].
  - destruct p; [done | discriminate].
  - unfold replace_g. cbn [replace_scan]. rewrite H.
    rewrite replace_scan_drop. by destruct p.
Qed.

Lemma replace_g_miss p v c s :
  starts_with p (c :: s) = false →
  replace_g p v (c :: s) = c :: replace_g p v s.
Proof. intros H. unfold replace_g. cbn [replace_scan]. by rewrite H. Qed.

(** A word without the first code unit of the pattern is copied. *)
Lemma replace_g_through h p v w s :
  forallb (λ x, negb (h =? x)%N) w = true →
  replace_g (h :: p) v (w ++ s) = w ++ replace_g (h :: p) v s.
Proof.
  induction w as [|a w IH]; [done|]. cbn [forallb app].
  intros [Ha Hw]%andb_true_iff.
  rewrite replace_g_miss; [by rewrite IH|].
  cbn [starts_with]. by destruct (h =? a)%N.
Qed.

(** What the result of a replacement starts with, the input started with,
    as long as it cannot come from the replacement text. *)
Lemma starts_with_replace_g_inv p v a v' q s :
  p ≠ [] → v = a :: v' →
  forallb (λ x, negb (x =? a)%N) q = true →
  starts_with q (replace_g p v s) = true → starts_with q s = true.
Proof.
  intros Hp ->. revert s. induction q as [|b q IH]; intros s; [done|].
  cbn [forallb]. intros [Hb Hq]%andb_true_iff.
  destruct s as [|c s]; [done|].
  destruct (starts_with p (c :: s)) eqn:Hm.
  - rewrite replace_g_hit by done. cbn [app starts_with].
    by destruct (b =? a)%N.
  - rewrite replace_g_miss by done. cbn [starts_with].
    intros [-> H]%andb_true_iff. simpl. eauto.
Qed.

Lemma starts_with_cons_replace_g_inv p v a v' b q c s :
  p ≠ [] → v = a :: v' →
  forallb (λ x, negb (x =? a)%N) q = true →
  starts_with (b :: q) (c :: replace_g p v s) = true →
  starts_with (b :: q) (c :: s) = true.
Proof.
  intros Hp Hv Hq. cbn [starts_with].
  intros [-> H]%andb_true_iff. simpl.
  eapply starts_with_replace_g_inv; eauto.
Qed.

Lemma render_scan_drop f c l k s :
  render_scan f c l k s = render_scan f c l 0 (drop k s).
Proof. revert s. induction k; intros [|x s]; simpl; auto. Qed.

Lemma render_hit_first f c l s :
  starts_with ph_first_name s = true →
  render_template f c l s
  = f ++ render_template f c l (drop (length ph_first_name) s).
Proof.
  intros H. destruct s as [|x s]; [discriminate|].
  unfold render_template. cbn [render_scan]. rewrite H.
  by rewrite render_scan_drop.
Qed.

Lemma render_hit_called f c l s :
  starts_with ph_called_name s = true →
  render_template f c l s
  = c ++ render_template f c l (drop (length ph_called_name) s).
Proof.
  intros H. destruct s as [|x s]; [discriminate|].
  assert (starts_with ph_first_name (x :: s) = false) as HF.
  { rewrite (starts_with_drop _ _ H). by vm_compute. }
  unfold render_template. cbn [render_scan]. rewrite HF, H.
  by rewrite render_scan_drop.
Qed.

Lemma render_hit_last f c l s :
  starts_with ph_last_name s = true →
  render_template f c l s
  = l ++ render_template f c l (drop (length ph_last_name) s).
Proof.
  intros H. destruct s as [|x s]; [discriminate|].
  assert (starts_with ph_first_name (x :: s) = false) as HF.
  { rewrite (starts_with_drop _ _ H). by vm_compute. }
  assert (starts_with ph_called_name (x :: s) = false) as HC.
  { rewrite (starts_with_drop _ _ H). by vm_compute. }
  unfold render_template. cbn [render_scan]. rewrite HF, HC, H.
  by rewrite render_scan_drop.
Qed.

Lemma render_miss f c l x s :
  starts_with ph_first_name (x :: s) = false →
  starts_with ph_called_name (x :: s) = false →
  starts_with ph_last_name (x :: s) = false →
  render_template f c l (x :: s) = x :: render_template f c l s.
Proof.
  intros HF HC HL. unfold render_template. cbn [render_scan].
  by rewrite HF, HC, HL.
Qed.

End Replace.

(** ** Three replacements in a row against one pass *)

Section Chain.

(** The open brace, the first code unit of every placeholder. *)
Let brace : N := 123%N.

Variables (first called last : jsstring) (a b : N) (first' called' : jsstring).
Hypothesis first_cons : first = a :: first'.
Hypothesis called_cons : called = b :: called'.
Hypothesis first_no_brace : forallb (λ x, negb (brace =? x)%N) first = true.
Hypothesis called_no_brace : forallb (λ x, negb (brace =? x)%N) called = true.
Hypothesis a_not_in_called_name :
  forallb (λ x, negb (x =? a)%N) (tail ph_called_name) = true.
Hypothesis a_not_in_last_name :
  forallb (λ x, negb (x =? a)%N) (tail ph_last_name) = true.
Hypothesis b_not_in_last_name :
  forallb (λ x, negb (x =? b)%N) (tail ph_last_name) = true.

Abbreviation chain := (replace_chain first called last).

Lemma chain_first r : chain (ph_first_name ++ r) = first ++ chain r.
Proof.
  unfold replace_chain.
  rewrite (replace_g_hit ph_first_name) by (done || apply starts_with_app).
  rewrite drop_app_length.
  change ph_called_name with (brace :: tail ph_called_name) at 1 2.
  rewrite replace_g_through by done.
  change ph_last_name with (brace :: tail ph_last_name) at 1 2.
  by rewrite replace_g_through.
Qed.

Lemma chain_called r : chain (ph_called_name ++ r) = called ++ chain r.
Proof.
  unfold replace_chain.
  change (ph_called_name ++ r) with (brace :: (tail ph_called_name ++ r)).
  rewrite replace_g_miss by by vm_compute.
  change ph_first_name with (brace :: tail ph_first_name) at 1.
  rewrite replace_g_through by by vm_compute.
  change (brace :: tail ph_called_name ++ ?x) with (ph_called_name ++ x).
  rewrite (replace_g_hit ph_called_name) by (done || apply starts_with_app).
  rewrite drop_app_length.
  change ph_last_name with (brace :: tail ph_last_name) at 1 2.
  by rewrite replace_g_through.
Qed.

Lemma chain_last r : chain (ph_last_name ++ r) = last ++ chain r.
Proof.
  unfold replace_chain.
  change (ph_last_name ++ r) with (brace :: (tail ph_last_name ++ r)).
  rewrite replace_g_miss by by vm_compute.
  change ph_first_name with (brace :: tail ph_first_name) at 1.
  rewrite replace_g_through by by vm_compute.
  rewrite replace_g_miss by by vm_compute.
  change ph_called_name with (brace :: tail ph_called_name) at 1.
  rewrite replace_g_through by by vm_compute.
  change (brace :: tail ph_last_name ++ ?x) with (ph_last_name ++ x).
  rewrite (replace_g_hit ph_last_name) by (done || apply starts_with_app).
  by rewrite drop_app_length.
Qed.

Lemma chain_miss x t :
  starts_with ph_first_name (x :: t) = false →
  starts_with ph_called_name (x :: t) = false →
  starts_with ph_last_name (x :: t) = false →
  chain (x :: t) = x :: chain t.
Proof.
  intros HF HC HL. unfold replace_chain.
  rewrite replace_g_miss by done.
  assert (starts_with ph_called_name
            (x :: replace_g ph_first_name first t) = false) as HC'.
  { apply not_true_is_false. intros H. apply not_true_iff_false in HC.
    apply HC.
    change ph_called_name with (brace :: tail ph_called_name) in *.
    by apply
      (starts_with_cons_replace_g_inv ph_first_name first a first'). }
  rewrite replace_g_miss by done.
  rewrite replace_g_miss; [done|].
  apply not_true_is_false. intros H. apply not_true_iff_false in HL.
  apply HL.
  change ph_last_name with (brace :: tail ph_last_name) in *.
  apply (starts_with_cons_replace_g_inv ph_first_name first a first');
    [done | exact first_cons | done |].
  apply (starts_with_cons_replace_g_inv ph_called_name called b called');
    [done | exact called_cons | done |].
  exact H.
Qed.

(** With values as above, replacing the placeholders one after the other
    gives what the single pass gives. *)
Lemma chain_render t : chain t = render_template first called last t.
Proof.
  remember (length t) as n eqn:Hn. revert t Hn.
  induction n as [n IH] using lt_wf_ind. intros t ->.
  destruct t as [|x t]; [done|].
  destruct (starts_with ph_first_name (x :: t)) eqn:HF.
  { rewrite render_hit_first by done.
    rewrite (starts_with_drop _ _ HF) at 1. rewrite chain_first.
    f_equal. eapply IH; [|done]. rewrite length_drop. simpl. lia. }
  destruct (starts_with ph_called_name (x :: t)) eqn:HC.
  { rewrite render_hit_called by done.
    rewrite (starts_with_drop _ _ HC) at 1. rewrite chain_called.
    f_equal. eapply IH; [|done]. rewrite length_drop. simpl. lia. }
  destruct (starts_with ph_last_name (x :: t)) eqn:HL.
  { rewrite render_hit_last by done.
    rewrite (starts_with_drop _ _ HL) at 1. rewrite chain_last.
    f_equal. eapply IH; [|done]. rewrite length_drop. simpl. lia. }
  rewrite render_miss, chain_miss by done.
  f_equal. eapply IH; [|done]. simpl. lia.
Qed.

End Chain.

(** ** The template preview *)

(** C5. For every template, the preview of the campaign form (three global
    replacements in a row, with the sample recipient John "Johnny" Smith) is
    the single-pass substitution of the TemplateRenderer.  That substitution,
    for any recipient's values, replaces each occurrence of [{first_name}],
    [{called_name}] and [{last_name}] by the recipient's value and goes on
    after the placeholder, so the text a replacement put in is not expanded
    again; every other code unit of the template is copied unchanged, so any
    other braced text passes through. *)
Theorem previewText_single_pass (st : NewCampaignPage.State) :
  NewCampaignPage.previewText st
  = render_template (js "John") (js "Johnny") (js "Smith")
      (NewCampaignPage.messageTemplate st)
  ∧ ∀ first called last,
      let render := render_template first called last in
      render [] = []
      ∧ (∀ t, render (ph_first_name ++ t) = first ++ render t)
      ∧ (∀ t, render (ph_called_name ++ t) = called ++ render t)
      ∧ (∀ t, render (ph_last_name ++ t) = last ++ render t)
      ∧ (∀ x t, starts_with ph_first_name (x :: t) = false →
                starts_with ph_called_name (x :: t) = false →
                starts_with ph_last_name (x :: t) = false →
                render (x :: t) = x :: render t).
Proof.
  split.
  { unfold NewCampaignPage.previewText.
    apply (chain_render (js "John") (js "Johnny") (js "Smith")
             74%N 74%N (js "ohn") (js "ohnny")); reflexivity. }
  intros first called last render. subst render.
  split; [done|]. split; [|split; [|split]].
  - intros t. rewrite render_hit_first by apply starts_with_app.
    by rewrite drop_app_length.
  - intros t. rewrite render_hit_called by apply starts_with_app.
    by rewrite drop_app_length.
  - intros t. rewrite render_hit_last by apply starts_with_app.
    by rewrite drop_app_length.
  - apply render_miss.
Qed.

(** The single pass leaves a template without an open brace as it is. *)
Lemma render_template_no_brace f c l t :
  forallb (λ x, negb (123 =? x)%N) t = true → render_template f c l t = t.
Proof.
  induction t as [|x t IH]; [done|]. cbn [forallb].
  intros [Hx Ht]%andb_true_iff.
  rewrite render_miss; [by rewrite IH | | |];
    cbn [ph_first_name ph_called_name ph_last_name starts_with];
    by destruct (123 =? x)%N.
Qed.

(** An unknown placeholder is kept, a known one next to it is replaced. *)
Example previewText_unknown_placeholder :
  render_template (js "John") (js "Johnny") (js "Smith")
    (js "{nickname} {first_name} {last_name}!")
  = js "{nickname} John Smith!".
Proof. reflexivity. Qed.

(** The agreement with the single pass rests on the sample values: with a
    value that itself holds a placeholder, the replacements in a row expand
    it, and the single pass does not. *)
Example replace_chain_expands_values :
  replace_chain (js "{last_name}") (js "Johnny") (js "Smith")
    (js "Hi {first_name}") = js "Hi Smith"
  ∧ render_template (js "{last_name}") (js "Johnny") (js "Smith")
      (js "Hi {first_name}") = js "Hi {last_name}".
Proof. split; reflexivity. Qed.

(** ** fetchApi *)

(** C8, as the code has it.  For every response: when it is not ok, [fetchApi]
    throws an [Error] whose message is "API error ", the status code, ": " and
    the body text; when it is ok, [fetchApi] gives what [res.json()] gives,
    the parsed body or the rejection of a body that does not parse; and it
    returns a value only for an ok response whose body parsed to that value. *)
Theorem fetchApi_outcome (res : Api.Response) :
  (Api.res_ok res = false →
   Api.fetchApi res
   = Throws (new_Error (js "API error " ++ js (pretty (Api.res_status res))
                        ++ js ": " ++ Api.res_text res)))
  ∧ (Api.res_ok res = true → Api.fetchApi res = Api.res_json res)
  ∧ (∀ v, Api.fetchApi res = Returns v →
          Api.res_ok res = true ∧ Api.res_json res = Returns v).
Proof.
  unfold Api.fetchApi. destruct (Api.res_ok res); simpl.
  - split; [done|]. split; [done|]. by intros v ->.
  - split; [done|]. split; [done|]. intros v H. discriminate H.
Qed.

Lemma fetchApi_outcome_witness :
  Api.fetchApi
    {| Api.res_ok := false; Api.res_status := 404%N;
       Api.res_text := js "Not Found";
       Api.res_json := Returns JNull |}
  = Throws (new_Error (js "API error 404: Not Found")).
Proof.
  exact (proj1 (fetchApi_outcome
    {| Api.res_ok := false; Api.res_status := 404%N;
       Api.res_text := js "Not Found";
       Api.res_json := Returns JNull |}) eq_refl).
Defined.

(** C8 fails as an equivalence: an ok response with an empty body makes
    [res.json()] reject, so [fetchApi] raises although the response is ok. *)
Lemma fetchApi_raises_on_ok_response :
  let res :=
    {| Api.res_ok := true; Api.res_status := 200%N; Api.res_text := [];
       Api.res_json :=
         Throws (new_Error (js "Unexpected end of JSON input")) |} in
  Api.res_ok res = true
  ∧ Api.fetchApi res = Throws (new_Error (js "Unexpected end of JSON input"))
  ∧ ¬ ((∃ e, Api.fetchApi res = Throws e) ↔ Api.res_ok res = false).
Proof.
  simpl. split; [done|]. split; [done|].
  intros [H _]. discriminate H. by eexists.
Qed.

(** ** The rates of the campaign detail page *)

Lemma float_zero_not_below (s : float) :
  (s =? 0)%float = true → (0 <? s)%float = false.
Proof.
  rewrite FloatAxioms.eqb_spec, FloatAxioms.ltb_spec.
  change (Prim2SF 0) with (S754_zero false).
  by destruct (Prim2SF s) as [[]|[]| |[]].
Qed.

(** C9, as the code has it.  For every campaign: when [sent_count > 0] the
    delivery rate is [Math.round] of the double [((sent_count - failed_count)
    / sent_count) * 100] and the response rate is [Math.round] of the double
    [(responded_count / sent_count) * 100], the quotient being rounded to a
    double before it is multiplied by 100; otherwise, and so when
    [sent_count == 0], both rates are exactly 0 and no quotient is taken. *)
Theorem rates_guarded (c : Api.Campaign) :
  ((0 <? Api.sent_count c)%float = true →
   CampaignDetailPage.deliveryRate c
   = Math_round
       (((Api.sent_count c - Api.failed_count c) / Api.sent_count c) * 100)%float
   ∧ CampaignDetailPage.responseRate c
     = Math_round ((Api.responded_count c / Api.sent_count c) * 100)%float)
  ∧ ((0 <? Api.sent_count c)%float = false →
     CampaignDetailPage.deliveryRate c = 0%float
     ∧ CampaignDetailPage.responseRate c = 0%float)
  ∧ ((Api.sent_count c =? 0)%float = true →
     CampaignDetailPage.deliveryRate c = 0%float
     ∧ CampaignDetailPage.responseRate c = 0%float).
Proof.
  unfold CampaignDetailPage.deliveryRate, CampaignDetailPage.responseRate.
  split; [by intros ->|]. split; [by intros ->|].
  intros H. by rewrite (float_zero_not_below _ H).
Qed.

Lemma rates_guarded_witness :
  CampaignDetailPage.deliveryRate (campaign_with_counts 40 10 4) = 75%float
  ∧ CampaignDetailPage.responseRate (campaign_with_counts 40 10 4) = 10%float
  ∧ CampaignDetailPage.deliveryRate (campaign_with_counts 0 0 0) = 0%float
  ∧ CampaignDetailPage.responseRate (campaign_with_counts 0 0 0) = 0%float.
Proof.
  destruct (rates_guarded (campaign_with_counts 40 10 4)) as [H1 _].
  destruct (rates_guarded (campaign_with_counts 0 0 0)) as [_ [_ H3]].
  destruct (H1 eq_refl) as [-> ->].
  destruct (H3 eq_refl) as [-> ->].
  repeat split; reflexivity.
Defined.

(** C9 fails as an equality with [round(100 * (sent - failed) / sent)]: with
    40 sent and 17 failed the exact value is 57.5, which rounds to 58, and the
    same formula evaluated on doubles in the order written gives 58 too; the
    page divides first, gets a double just under 0.575, and shows 57.  The
    response rate does the same with 23 responses out of 40. *)
Lemma deliveryRate_differs_from_exact_rate :
  CampaignDetailPage.deliveryRate (campaign_with_counts 40 17 23) = 57%float
  ∧ CampaignDetailPage.responseRate (campaign_with_counts 40 17 23) = 57%float
  ∧ exact_rate (40 - 17) 40 = 58
  ∧ Math_round ((100 * (40 - 17)) / 40)%float = 58%float
  ∧ CampaignDetailPage.deliveryRate (campaign_with_counts 40 17 23)
    ≠ float_of_Z (exact_rate (40 - 17) 40).
Proof.
  repeat split; try reflexivity.
  vm_compute. intros H. discriminate H.
Qed.

(** Away from ties the page shows the exact rate: checked for every campaign
    with up to 100 sent messages. *)
Lemma deliveryRate_exact_off_ties :
  forallb (λ sent,
             forallb (displayed_rate_agrees sent) (seqZ 0 (sent + 1)))
    (seqZ 1 100) = true.
Proof. vm_compute. reflexivity. Qed.

(** ** The campaign form *)

(** C7. When the name is blank after trimming, or the message template is
    blank after trimming, or the channel is email and the subject is blank
    after trimming, submitting the campaign form only sets a non-empty error:
    it makes no API call, so [createCampaign] is never called and no campaign
    is created, and nothing else of the form changes. *)
Theorem handleSubmit_rejects_malformed
    (created : outcome Api.Campaign) (st : NewCampaignPage.State) :
  trim (NewCampaignPage.name st) = []
  ∨ trim (NewCampaignPage.messageTemplate st) = []
  ∨ (NewCampaignPage.channel st = NewCampaignPage.email
     ∧ trim (NewCampaignPage.subject st) = []) →
  ∃ msg, msg ≠ []
    ∧ NewCampaignPage.handleSubmit created st
      = (NewCampaignPage.set_error msg st, []).
Proof.
  unfold NewCampaignPage.handleSubmit.
  destruct (trim (NewCampaignPage.name st)) as [|x n] eqn:Hn; simpl.
  { intros _. by exists (js "Campaign name is required"). }
  destruct (trim (NewCampaignPage.messageTemplate st)) as [|y m] eqn:Hm; simpl.
  { intros _. by exists (js "Message template is required"). }
  intros [H | [H | [Hc Hs]]]; [done | done |].
  rewrite Hc, Hs. simpl. by exists (js "Email subject is required").
Qed.

Lemma handleSubmit_rejects_malformed_witness :
  ∃ msg, msg ≠ []
    ∧ NewCampaignPage.handleSubmit
        (Returns (campaign_with_counts 0 0 0))
        {| NewCampaignPage.name := js "Spring outreach";
           NewCampaignPage.channel := NewCampaignPage.email;
           NewCampaignPage.tierFilter := js "warm";
           NewCampaignPage.scoreMin := 50%float;
           NewCampaignPage.messageTemplate := js "Hi {called_name}";
           NewCampaignPage.subject := js "  ";
           NewCampaignPage.submitting := false;
           NewCampaignPage.error := [] |}
      = (NewCampaignPage.set_error msg
           {| NewCampaignPage.name := js "Spring outreach";
              NewCampaignPage.channel := NewCampaignPage.email;
              NewCampaignPage.tierFilter := js "warm";
              NewCampaignPage.scoreMin := 50%float;
              NewCampaignPage.messageTemplate := js "Hi {called_name}";
              NewCampaignPage.subject := js "  ";
              NewCampaignPage.submitting := false;
              NewCampaignPage.error := [] |}, []).
Proof.
  apply handleSubmit_rejects_malformed.
  right. right. split; reflexivity.
Defined.

(** A form that passes the three checks calls [createCampaign] once, with the
    trimmed name and the form's fields. *)
Lemma handleSubmit_creates_well_formed
    (created : outcome Api.Campaign) (st : NewCampaignPage.State) :
  trim (NewCampaignPage.name st) ≠ [] →
  trim (NewCampaignPage.messageTemplate st) ≠ [] →
  (NewCampaignPage.channel st = NewCampaignPage.email →
   trim (NewCampaignPage.subject st) ≠ []) →
  Frontend.created_calls (NewCampaignPage.handleSubmit created st).2
  = [Api.createCampaign (NewCampaignPage.campaign_data st)].
Proof.
  unfold NewCampaignPage.handleSubmit. intros Hn Hm Hs.
  destruct (trim (NewCampaignPage.name st)); [done|].
  destruct (trim (NewCampaignPage.messageTemplate st)); [done|]. simpl.
  destruct (NewCampaignPage.channel st); simpl.
  - by destruct created.
  - destruct (trim (NewCampaignPage.subject st)); [by specialize (Hs eq_refl)|].
    by destruct created.
Qed.

(** ** The agent form *)

(** C10. Every submission of the agent form calls [submitAgentTask] once, with
    the selected task, the parameters of [buildParams] and a [confirmed] flag
    that is true exactly when the selected task is [sync_patients]; the
    request body carries that flag, and for [book_appointment] and
    [update_record] it is false. *)
Theorem agent_autoconfirm (submitted : outcome json) (st : AgentPage.State) :
  let confirmed :=
    bool_decide (AgentPage.selectedTask st = js "sync_patients") in
  (∃ reloads,
      (AgentPage.handleSubmit submitted st).2
      = Api.submitAgentTask (AgentPage.selectedTask st)
          (AgentPage.buildParams st) confirmed :: reloads
      ∧ Forall (λ c, Api.req_method (Api.request_of c) = Api.GET) reloads)
  ∧ Api.req_body (Api.request_of (AgentPage.submit_call st))
    = Some (JObj [(js "task_type", JStr (AgentPage.selectedTask st));
                  (js "params", stringify_object (AgentPage.buildParams st));
                  (js "confirmed", JBool confirmed)])
  ∧ (confirmed = true ↔ AgentPage.selectedTask st = js "sync_patients")
  ∧ (AgentPage.selectedTask st = js "book_appointment"
     ∨ AgentPage.selectedTask st = js "update_record" → confirmed = false).
Proof.
  intros confirmed. split; [|split; [done|split]].
  - destruct submitted; simpl; eexists; (split; [reflexivity|]).
    + repeat constructor.
    + constructor.
  - apply bool_decide_eq_true.
  - subst confirmed. intros [H | H]; rewrite H; reflexivity.
Qed.

(** ** The requests of the API client and the DNC flag *)

Lemma json_of_number_mentions k x : mentions_key k (json_of_number x) = false.
Proof. unfold json_of_number. by case_match. Qed.
















(** A created campaign takes an id that no campaign on record has, so
    creation overwrites nothing. *)
Lemma next_id_above {A} (m : gmap Z A) i :
  is_Some (m !! i) → i < Backend.next_id m.
Proof.
  unfold Backend.next_id.
  cut (is_Some (m !! i) → i ≤ map_fold (λ i _ above, Z.max i above) 0 m);
    [intros H1 H2; specialize (H1 H2); lia|].
  apply (map_fold_weak_ind
           (λ r (m : gmap Z A), is_Some (m !! i) → i ≤ r)).
  - intros [x Hx]. by rewrite lookup_empty in Hx.
  - intros j x m' r Hj IH [y Hy].
    destruct (decide (i = j)) as [->|Hne]; [lia|].
    rewrite lookup_insert_ne in Hy by done.
    assert (i ≤ r) by (apply IH; by eexists). lia.
Qed.

Lemma create_keeps_campaigns decode data st i c :
  Core.campaigns st !! i = Some c →
  Core.campaigns (Backend.create decode data st).1 !! i = Some c.
Proof.
  intros Hc. unfold Backend.create. destruct (decode data) as [c'|]; [|done].
  cbn [fst Core.campaigns Backend.as_draft Core.c_id].
  rewrite lookup_insert_ne; [done|].
  assert (i < Backend.next_id (Core.campaigns st))
    by (apply next_id_above; by eexists).
  lia.
Qed.

(** A run in which the flag is set and then stays: the patient of a sent
    message opts out; afterwards a queue status update, an agent task whose
    [fields] name [is_dnc] and a reload of the patients page leave the
    patient on the do-not-contact list. *)
Lemma opt_out_then_requests :
  let p :=
    {| Core.p_id := 1; Core.p_account_id := js "6211C";
       Core.p_cell_phone := Some (js "5550100"); Core.p_email := None;
       Core.p_alt_phone := None; Core.p_is_dnc := false;
       Core.p_last_appt := Some 310; Core.p_total_visits := 12;
       Core.p_has_insurance := false |} in
  let m :=
    {| Core.m_campaign_id := 7; Core.m_queue_item_id := 3;
       Core.m_patient_id := 1; Core.m_recipient := Some (js "5550100");
       Core.m_status := Core.msg_sent;
       Core.m_external_id := Some (js "SM1"); Core.m_is_opt_out := false |} in
  let st :=
    {| Core.patients := {[ 1 := p ]}; Core.queue := ∅;
       Core.campaigns := ∅; Core.messages := [m] |} in
  let st' :=
    Backend.run (λ _, None)
      [Backend.OptOut (js "SM1");
       Backend.Request (Api.updateQueueStatus 3 (js "pending"));
       Backend.Request
         (Api.submitAgentTask (js "update_record")
            [(js "patient_account_id", Some (JStr (js "6211C")));
             (js "fields", Some (JObj [(js "is_dnc", JBool false)]))]
            false);
       Backend.Page (Frontend.PatientsLoad [(js "is_dnc", js "false")])]
      st in
  Core.patients st' !! 1 = Some (Backend.with_dnc p)
  ∧ Core.messages st' = [Backend.with_opt_out m].
Proof. by vm_compute. Qed.



(** ** The scoring scenario *)

(** C3. A patient whose last appointment is 8 months before the as-of time,
    with an email, no cell phone and no alternate phone, 12 visits, no
    insurance and not DNC scores 35 + 20 + 7 = 62 and is in tier warm. *)
Theorem ScoringEngine_warm_scenario (as_of l : Z) (p : Core.Patient) :
  Core.p_last_appt p = Some l →
  as_of - l = 8 →
  is_Some (Core.p_email p) →
  Core.p_cell_phone p = None →
  Core.p_alt_phone p = None →
  Core.p_total_visits p = 12 →
  Core.p_has_insurance p = false →
  Core.p_is_dnc p = false →
  Core.ScoringEngine as_of p = {| Core.score := 62; Core.tier := Core.warm |}
  ∧ Core.recency_points (Core.recency_band as_of (Core.p_last_appt p)) = 35
  ∧ Core.visit_points (Core.p_total_visits p) = 7.
Proof.
  intros Hl Hm [e He] Hc Ha Hv Hi Hd.
  unfold Core.ScoringEngine, Core.recency_band.
  rewrite Hl, Hm, He, Hc, Ha, Hv, Hi, Hd. by vm_compute.
Qed.

Lemma ScoringEngine_warm_scenario_witness :
  Core.ScoringEngine 318
    {| Core.p_id := 1; Core.p_account_id := js "6211C";
       Core.p_cell_phone := None;
       Core.p_email := Some (js "pat@example.com");
       Core.p_alt_phone := None; Core.p_is_dnc := false;
       Core.p_last_appt := Some 310; Core.p_total_visits := 12;
       Core.p_has_insurance := false |}
  = {| Core.score := 62; Core.tier := Core.warm |}.
Proof.
  eapply proj1, (ScoringEngine_warm_scenario 318 310); try reflexivity.
  by eexists.
Defined.

(** The same patient with the DNC flag set scores 62 - 30 = 32. *)
Example ScoringEngine_dnc_scenario :
  Core.ScoringEngine 318
    {| Core.p_id := 1; Core.p_account_id := js "6211C";
       Core.p_cell_phone := None;
       Core.p_email := Some (js "pat@example.com");
       Core.p_alt_phone := None; Core.p_is_dnc := true;
       Core.p_last_appt := Some 310; Core.p_total_visits := 12;
       Core.p_has_insurance := false |}
  = {| Core.score := 32; Core.tier := Core.warm |}.
Proof. reflexivity. Qed.

(** The score is always within 0 and 100. *)
Lemma ScoringEngine_bounds as_of p :
  0 ≤ Core.score (Core.ScoringEngine as_of p) ≤ 100.
Proof. unfold Core.ScoringEngine, Core.clamp. simpl. lia. Qed.

(** ** Queue transitions *)

(** C6. For a queue item on record and any requested status, [setStatus]
    succeeds exactly when the transition is pending to contacted, contacted to
    responded, responded to booked, or any state to dead, and then stores the
    item with the new status; otherwise it fails with [InvalidTransition] and
    leaves the store, the item included, as it was.  The queue page offers all
    five statuses in its dropdown; when the update is rejected it shows the
    error and keeps its data, and when it is accepted it reloads the queue. *)
Theorem setStatus_legal_transitions
    (st : Core.Store) (i : Z) (q : Core.QueueItem) (new : Core.QueueStatus) :
  Core.queue st !! i = Some q →
  let listed :=
    (Core.q_status q = Core.pending ∧ new = Core.contacted)
    ∨ (Core.q_status q = Core.contacted ∧ new = Core.responded)
    ∨ (Core.q_status q = Core.responded ∧ new = Core.booked)
    ∨ new = Core.dead in
  (listed ↔ ∃ q', (Core.setStatus i new st).2 = inr q')
  ∧ (listed →
     Core.setStatus i new st
     = (Core.with_queue (<[i := Core.with_status new q]> (Core.queue st)) st,
        inr (Core.with_status new q)))
  ∧ (¬ listed → Core.setStatus i new st = (st, inl Core.InvalidTransition))
  ∧ QueuePage.dropdown_options
    = Core.status_name
      <$> [Core.pending; Core.contacted; Core.responded; Core.booked;
           Core.dead]
  ∧ (∀ e queue id pst,
       QueuePage.handleStatusChange (Throws e) queue id
         (Core.status_name new) pst
       = ({| QueuePage.params := QueuePage.params pst;
             QueuePage.data := QueuePage.data pst;
             QueuePage.error := message_or (js "Failed to update status") e |},
          [Api.updateQueueStatus id (Core.status_name new)]))
  ∧ (∀ v queue id pst,
       QueuePage.handleStatusChange (Returns v) queue id
         (Core.status_name new) pst
       = (QueuePage.load queue pst,
          [Api.updateQueueStatus id (Core.status_name new);
           QueuePage.load_call pst])).
Proof.
  intros Hq listed.
  assert (Core.legal_transition (Core.q_status q) new = true ↔ listed) as Hl.
  { subst listed.
    destruct (Core.q_status q), new; simpl;
      (split; [intros H; try discriminate H; tauto | intuition congruence]). }
  unfold Core.setStatus. rewrite Hq.
  destruct (Core.legal_transition (Core.q_status q) new) eqn:E; simpl.
  - repeat split; try done.
    + by eexists.
    + by intros _; apply Hl.
    + intros Hn. destruct Hn. by apply Hl.
  - repeat split; try done.
    + intros H. apply Hl in H. discriminate H.
    + intros [q' H]. discriminate H.
    + intros H. apply Hl in H. discriminate H.
Qed.

Lemma setStatus_legal_transitions_witness :
  let q :=
    {| Core.q_id := 5; Core.q_patient_id := 1; Core.q_cell_phone := None;
       Core.q_email := Some (js "pat@example.com"); Core.q_tier := Core.warm;
       Core.q_score := 62; Core.q_status := Core.pending;
       Core.q_contact_attempts := 0; Core.q_last_contacted_at := None |} in
  let st :=
    {| Core.patients := ∅; Core.queue := {[ 5 := q ]}; Core.campaigns := ∅;
       Core.messages := [] |} in
  (Core.setStatus 5 Core.booked st).2 = inl Core.InvalidTransition
  ∧ (Core.setStatus 5 Core.booked st).1 = st.
Proof.
  intros q st.
  pose proof (setStatus_legal_transitions st 5 q Core.booked
                (lookup_singleton_eq 5 q)) as (_ & _ & H & _).
  rewrite H; [done|].
  intros [[_ H'] | [[H' _] | [[H' _] | H']]]; discriminate H'.
Defined.

(** ** Eligibility *)

Lemma opted_out_spec (st : Core.Store) (pid : Z) :
  Core.opted_out st pid = true
  ↔ ∃ m, m ∈ Core.messages st
         ∧ Core.m_patient_id m = pid ∧ Core.m_is_opt_out m = true.
Proof.
  unfold Core.opted_out. rewrite existsb_exists. split.
  - intros (m & Hin & [Hp Ho]%andb_true_iff).
    exists m. rewrite list_elem_of_In. by apply bool_decide_eq_true in Hp.
  - intros (m & Hin & Hp & Ho). exists m.
    rewrite <- list_elem_of_In, Ho, andb_true_r.
    split; [done|]. by apply bool_decide_eq_true.
Qed.

Lemma has_is_Some {A} (o : option A) : Core.has o = true ↔ is_Some o.
Proof.
  destruct o; simpl; split; try done.
Qed.

#[local] Instance precedes_total : Total Core.precedes.
Proof. intros x y. unfold Core.precedes. lia. Qed.

(** The recipients come out by descending score, then ascending patient. *)
Lemma resolve_sorted (st : Core.Store) (c : Core.Campaign) :
  Sorted Core.precedes (Core.resolve st c).
Proof. apply Sorted_merge_sort, _. Qed.

(** C2. A queue item is in the resolved recipient set of a campaign exactly
    when it is on the queue, its status is pending or contacted, the
    campaign's tier filter is unset or equal to its tier, its score is at
    least [score_min], and its patient is on record with [is_dnc] false, with
    no prior message whose [is_opt_out] is true, and with a contact address
    for the campaign's channel (the cell phone for sms, the email for email).
    So an item whose patient has [is_dnc] true is excluded whatever its
    score. *)
Theorem resolve_membership
    (st : Core.Store) (c : Core.Campaign) (q : Core.QueueItem) :
  (q ∈ Core.resolve st c
   ↔ (∃ i, Core.queue st !! i = Some q)
     ∧ (Core.q_status q = Core.pending ∨ Core.q_status q = Core.contacted)
     ∧ (Core.c_tier_filter c = None
        ∨ Core.c_tier_filter c = Some (Core.q_tier q))
     ∧ Core.c_score_min c ≤ Core.q_score q
     ∧ ∃ p, Core.patients st !! Core.q_patient_id q = Some p
            ∧ Core.p_is_dnc p = false
            ∧ (¬ ∃ m, m ∈ Core.messages st
                      ∧ Core.m_patient_id m = Core.q_patient_id q
                      ∧ Core.m_is_opt_out m = true)
            ∧ is_Some (match Core.c_channel c with
                       | Core.sms => Core.p_cell_phone p
                       | Core.email => Core.p_email p
                       end))
  ∧ (∀ p, Core.patients st !! Core.q_patient_id q = Some p →
          Core.p_is_dnc p = true → q ∉ Core.resolve st c).
Proof.
  assert (q ∈ Core.resolve st c
          ↔ Core.eligible st c q = true ∧ ∃ i, Core.queue st !! i = Some q)
    as Hin.
  { unfold Core.resolve. rewrite merge_sort_Permutation.
    rewrite list_elem_of_filter, list_elem_of_fmap, Is_true_true.
    apply and_iff_compat_l. split.
    - intros ([i q'] & -> & H%elem_of_map_to_list). by exists i.
    - intros [i H]. exists (i, q). by rewrite elem_of_map_to_list. }
  assert (Core.eligible st c q = true
          ↔ (Core.q_status q = Core.pending
             ∨ Core.q_status q = Core.contacted)
            ∧ (Core.c_tier_filter c = None
               ∨ Core.c_tier_filter c = Some (Core.q_tier q))
            ∧ Core.c_score_min c ≤ Core.q_score q
            ∧ ∃ p, Core.patients st !! Core.q_patient_id q = Some p
                   ∧ Core.p_is_dnc p = false
                   ∧ Core.opted_out st (Core.q_patient_id q) = false
                   ∧ is_Some (Core.contact_address (Core.c_channel c) p))
    as Hel.
  { assert (match Core.c_tier_filter c with
            | None => true
            | Some t => bool_decide (Core.q_tier q = t)
            end = true
            ↔ Core.c_tier_filter c = None
              ∨ Core.c_tier_filter c = Some (Core.q_tier q)) as Htier.
    { destruct (Core.c_tier_filter c) as [t|].
      - rewrite bool_decide_eq_true. split; [by right; f_equal|].
        by intros [|[= ->]].
      - split; [by left | done]. }
    assert (match Core.patients st !! Core.q_patient_id q with
            | Some p =>
                negb (Core.p_is_dnc p)
                && negb (Core.opted_out st (Core.q_patient_id q))
                && Core.has (Core.contact_address (Core.c_channel c) p)
            | None => false
            end = true
            ↔ ∃ p, Core.patients st !! Core.q_patient_id q = Some p
                   ∧ Core.p_is_dnc p = false
                   ∧ Core.opted_out st (Core.q_patient_id q) = false
                   ∧ is_Some (Core.contact_address (Core.c_channel c) p))
      as Hpat.
    { destruct (Core.patients st !! Core.q_patient_id q) as [p|].
      - rewrite !andb_true_iff, !negb_true_iff, has_is_Some. split.
        + intros [[? ?] ?]. by exists p.
        + by intros (p' & [= <-] & ? & ? & ?).
      - split; [done | by intros (p' & ? & _)]. }
    unfold Core.eligible.
    rewrite !andb_true_iff, orb_true_iff, !bool_decide_eq_true, Z.leb_le.
    rewrite Htier, Hpat. tauto. }
  split.
  - rewrite Hin, Hel. split.
    + intros [(Hs & Ht & Hm & p & Hp & Hd & Ho & Ha) Hq].
      split; [done|]. repeat (split; [done|]).
      exists p. repeat (split; [done|]). split; [|by destruct (Core.c_channel c)].
      intros Hex%opted_out_spec. congruence.
    + intros (Hq & Hs & Ht & Hm & p & Hp & Hd & Ho & Ha).
      split; [|done]. repeat (split; [done|]).
      exists p. repeat (split; [done|]). split; [|by destruct (Core.c_channel c)].
      apply not_true_is_false. by rewrite opted_out_spec.
  - intros p Hp Hd [(_ & _ & _ & p' & Hp' & Hd' & _)%Hel _]%Hin.
    congruence.
Qed.

(** ** Submitting a campaign *)

Section Submit.

Implicit Types (st : Core.Store) (i j : Z) (evs : list Core.Event).

Abbreviation left_draft := Core.left_draft.

Lemma submit_won i st st' ms :
  Core.submit i st = (st', inr ms) →
  ∃ c, Core.campaigns st !! i = Some c
       ∧ Core.c_status c = Core.draft
       ∧ st' = {| Core.patients := Core.patients st;
                  Core.queue := Core.queue st;
                  Core.campaigns :=
                    <[i := Core.entering Core.sending
                             (Z.of_nat (length (Core.resolve st c))) c]>
                      (Core.campaigns st);
                  Core.messages := Core.messages st ++ ms |}
       ∧ ms = Core.message_for st c <$> Core.resolve st c.
Proof.
  unfold Core.submit. destruct (Core.campaigns st !! i) as [c|]; [|done].
  destruct (Core.c_status c) eqn:Hs; try done.
  intros [= <- <-]. by exists c.
Qed.

Lemma submit_lost i st c :
  Core.campaigns st !! i = Some c → Core.c_status c ≠ Core.draft →
  Core.submit i st = (st, inl Core.AlreadySending).
Proof.
  unfold Core.submit. intros -> Hs. by destruct (Core.c_status c).
Qed.

Lemma submit_left_draft i st :
  left_draft i st → (Core.submit i st).1 = st
                    ∧ Core.succeeded (Core.submit i st).2 = false.
Proof.
  unfold Core.left_draft, Core.submit. intros H.
  destruct (Core.campaigns st !! i) as [c|]; [|done].
  specialize (H c eq_refl). by destruct (Core.c_status c).
Qed.

Lemma step_left_draft i ev st :
  left_draft i st → left_draft i (Core.step ev st).1.
Proof.
  unfold Core.left_draft. intros H c. destruct ev as [j|j b|j s]; simpl.
  - unfold Core.submit. destruct (Core.campaigns st !! j) as [cj|] eqn:Hj;
      [|by apply H].
    destruct (Core.c_status cj) eqn:Hs; simpl; try by apply H.
    destruct (decide (j = i)) as [->|Hne].
    + rewrite lookup_insert_eq. by intros [= <-].
    + rewrite lookup_insert_ne by done. apply H.
  - unfold Core.complete. destruct (Core.campaigns st !! j) as [cj|] eqn:Hj;
      [|by apply H].
    destruct (Core.c_status cj) eqn:Hs; simpl; try by apply H.
    destruct (decide (j = i)) as [->|Hne].
    + rewrite lookup_insert_eq. intros [= <-]. by destruct b.
    + rewrite lookup_insert_ne by done. apply H.
  - unfold Core.setStatus. destruct (Core.queue st !! j) as [q|];
      [|by apply H].
    destruct (Core.legal_transition (Core.q_status q) s); by apply H.
Qed.

Lemma wins_cons i ev b log :
  Core.wins i ((ev, b) :: log)
  = ((if Core.is_win i (ev, b) then 1 else 0) + Core.wins i log)%nat.
Proof.
  unfold Core.wins. rewrite filter_cons.
  by destruct (Core.is_win i (ev, b)).
Qed.

(** Once the campaign has left draft, no submit of it wins any more. *)
Lemma wins_left_draft i evs st :
  left_draft i st → Core.wins i (Core.run evs st).2 = 0%nat.
Proof.
  revert st. induction evs as [|ev evs IH]; intros st H; [done|].
  cbn [Core.run snd]. rewrite wins_cons.
  rewrite IH by by apply step_left_draft.
  destruct ev as [j|j b|j s]; try done. cbn [Core.step Core.is_win snd].
  destruct (Core.succeeded (Core.submit j st).2) eqn:Hw; [|done].
  case_bool_decide as Hj; [subst j|done].
  apply submit_left_draft in H as [_ H]. congruence.
Qed.

Lemma wins_at_most_once i evs st :
  (Core.wins i (Core.run evs st).2 ≤ 1)%nat.
Proof.
  revert st. induction evs as [|ev evs IH]; intros st; [compute; lia|].
  cbn [Core.run snd]. rewrite wins_cons.
  destruct (Core.is_win i (ev, (Core.step ev st).2)) eqn:Hw;
    [|apply IH].
  destruct ev as [j|j b|j s]; try done. cbn [Core.step Core.is_win snd] in *.
  destruct (Core.succeeded (Core.submit j st).2) eqn:Hs; [|done].
  apply bool_decide_eq_true in Hw as ->.
  rewrite wins_left_draft; [done|].
  destruct (Core.submit i st) as [st' [e|ms]] eqn:Hsub; [done|].
  apply submit_won in Hsub as (c & Hc & Hd & -> & _).
  intros c'. cbn [fst Core.campaigns]. rewrite lookup_insert_eq.
  by intros [= <-].
Qed.

End Submit.

(** C4. In every run of the core, whatever the order of the requests, at most
    one submit of a campaign wins the draft-to-sending transition.  A submit
    succeeds only on a campaign whose status is draft; it leaves the campaign
    in sending with one pending message per resolved recipient appended, and a
    second submit of the same campaign then fails with [AlreadySending] and
    leaves the store, its messages included, as it was; so does any submit of
    a campaign that is not in draft.  The detail page renders the Send
    Campaign button exactly when the campaign's status is draft, and a click
    calls the API only for such a campaign, while no send is under way. *)
Theorem submit_at_most_once :
  (∀ evs st i, (Core.wins i (Core.run evs st).2 ≤ 1)%nat)
  ∧ (∀ i st st' ms,
       Core.submit i st = (st', inr ms) →
       ∃ c, Core.campaigns st !! i = Some c
            ∧ Core.c_status c = Core.draft
            ∧ Core.c_status <$> Core.campaigns st' !! i = Some Core.sending
            ∧ ms = Core.message_for st c <$> Core.resolve st c
            ∧ Core.messages st' = Core.messages st ++ ms
            ∧ Core.submit i st' = (st', inl Core.AlreadySending))
  ∧ (∀ i st c,
       Core.campaigns st !! i = Some c → Core.c_status c ≠ Core.draft →
       Core.submit i st = (st, inl Core.AlreadySending))
  ∧ (∀ c, CampaignDetailPage.send_button_offered c = true
          ↔ Api.status c = js "draft")
  ∧ (∀ sent loaded pst,
       (CampaignDetailPage.click_send sent loaded pst).2 ≠ [] →
       ∃ c, CampaignDetailPage.campaign pst = Some c
            ∧ Api.status c = js "draft"
            ∧ CampaignDetailPage.sending pst = false
            ∧ head (CampaignDetailPage.click_send sent loaded pst).2
              = Some (Api.sendCampaign (Api.id c))).
Proof.
  split; [intros evs st i; apply wins_at_most_once|].
  split.
  { intros i st st' ms (c & Hc & Hd & -> & Hms)%submit_won.
    exists c. cbn [Core.campaigns Core.messages].
    rewrite lookup_insert_eq. repeat (split; [done|]).
    eapply submit_lost; [apply lookup_insert_eq | done]. }
  split; [exact submit_lost|].
  split; [intros c; apply bool_decide_eq_true|].
  intros sent loaded pst. unfold CampaignDetailPage.click_send.
  destruct (CampaignDetailPage.campaign pst) as [c|] eqn:Hc; [|done].
  destruct (CampaignDetailPage.send_button_offered c) eqn:Ho; [|done].
  destruct (CampaignDetailPage.sending pst) eqn:Hs; [done|].
  intros _. exists c. apply bool_decide_eq_true in Ho.
  repeat (split; [done|]).
  unfold CampaignDetailPage.handleSend. rewrite Hc. by destruct sent.
Qed.

(** Two submits of one draft campaign with a single eligible patient: the
    first wins and creates one message, the second loses and creates none. *)
Example submit_twice :
  let p :=
    {| Core.p_id := 1; Core.p_account_id := js "6211C";
       Core.p_cell_phone := Some (js "5551234567");
       Core.p_email := None; Core.p_alt_phone := None;
       Core.p_is_dnc := false; Core.p_last_appt := Some 310;
       Core.p_total_visits := 12; Core.p_has_insurance := false |} in
  let q :=
    {| Core.q_id := 5; Core.q_patient_id := 1;
       Core.q_cell_phone := Some (js "5551234567"); Core.q_email := None;
       Core.q_tier := Core.warm; Core.q_score := 57;
       Core.q_status := Core.pending; Core.q_contact_attempts := 0;
       Core.q_last_contacted_at := None |} in
  let c :=
    {| Core.c_id := 9; Core.c_channel := Core.sms;
       Core.c_tier_filter := Some Core.warm; Core.c_score_min := 50;
       Core.c_message_template := js "Hi {called_name}";
       Core.c_subject := None; Core.c_status := Core.draft;
       Core.c_total_recipients := 0; Core.c_sent_count := 0;
       Core.c_failed_count := 0; Core.c_responded_count := 0;
       Core.c_booked_count := 0 |} in
  let st :=
    {| Core.patients := {[ 1 := p ]}; Core.queue := {[ 5 := q ]};
       Core.campaigns := {[ 9 := c ]}; Core.messages := [] |} in
  let r := Core.run [Core.Submit 9; Core.Submit 9] st in
  r.2 = [(Core.Submit 9, true); (Core.Submit 9, false)]
  ∧ length (Core.messages r.1) = 1%nat
  ∧ Core.c_total_recipients <$> Core.campaigns r.1 !! 9 = Some 1.
Proof. by vm_compute. Qed.

(** * More of the frontend *)

(** ** URL search parameters *)

Section SearchParams.

Implicit Types (k name value : jsstring) (l : list (jsstring * jsstring)).

Lemma get_delete_eq name l :
  URLSearchParams.get name (URLSearchParams.delete name l) = None.
Proof.
  unfold URLSearchParams.delete.
  induction l as [|[k v] l IH]; [done|]. rewrite filter_cons. simpl.
  case_decide as Hk; [|done]. simpl. by rewrite bool_decide_false.
Qed.

Lemma get_delete_ne name k l :
  k ≠ name →
  URLSearchParams.get k (URLSearchParams.delete name l)
  = URLSearchParams.get k l.
Proof.
  intros Hne. unfold URLSearchParams.delete.
  induction l as [|[k' v] l IH]; [done|]. rewrite filter_cons. simpl.
  case_decide as Hk; simpl.
  - by rewrite IH.
  - rewrite IH. rewrite bool_decide_false; [done|]. congruence.
Qed.

Lemma get_set_eq name value l :
  URLSearchParams.get name (URLSearchParams.set name value l) = Some value.
Proof.
  induction l as [|[k v] l IH]; simpl.
  - by rewrite bool_decide_true.
  - case_bool_decide; simpl; [by rewrite bool_decide_true|].
    by rewrite bool_decide_false.
Qed.

Lemma get_set_ne name value k l :
  k ≠ name →
  URLSearchParams.get k (URLSearchParams.set name value l)
  = URLSearchParams.get k l.
Proof.
  intros Hne. induction l as [|[k' v] l IH]; simpl.
  - rewrite bool_decide_false; [done|]. congruence.
  - case_bool_decide as Hk; simpl.
    + subst k'. rewrite !bool_decide_false by congruence.
      by apply get_delete_ne.
    + by rewrite IH.
Qed.

(** The entries with a given name. *)
Lemma named_delete_eq name l :
  filter (λ kv, kv.1 = name) (URLSearchParams.delete name l) = [].
Proof.
  unfold URLSearchParams.delete.
  induction l as [|[k v] l IH]; [done|]. rewrite filter_cons. simpl.
  case_decide; [|done]. rewrite filter_cons. simpl. by case_decide.
Qed.

Lemma named_delete_ne name k l :
  k ≠ name →
  filter (λ kv, kv.1 = k) (URLSearchParams.delete name l)
  = filter (λ kv, kv.1 = k) l.
Proof.
  intros Hne. unfold URLSearchParams.delete.
  induction l as [|[k' v] l IH]; [done|]. rewrite !filter_cons. simpl.
  case_decide as H1; case_decide as H2; rewrite ?filter_cons; simpl;
    try case_decide; try congruence.
Qed.

Lemma named_set_eq name value l :
  filter (λ kv, kv.1 = name) (URLSearchParams.set name value l)
  = [(name, value)].
Proof.
  induction l as [|[k v] l IH]; simpl.
  - rewrite filter_cons. simpl. by case_decide.
  - case_bool_decide as Hk; rewrite filter_cons; simpl.
    + case_decide; [|done]. by rewrite named_delete_eq.
    + by case_decide.
Qed.

Lemma named_set_ne name value k l :
  k ≠ name →
  filter (λ kv, kv.1 = k) (URLSearchParams.set name value l)
  = filter (λ kv, kv.1 = k) l.
Proof.
  intros Hne. induction l as [|[k' v] l IH]; simpl.
  - rewrite filter_cons. simpl. case_decide; [congruence | done].
  - case_bool_decide as Hk; rewrite !filter_cons; simpl.
    + subst k'. case_decide; [congruence|]. by apply named_delete_ne.
    + by rewrite IH.
Qed.

(** [get] is the first of the entries with the name. *)
Lemma get_head_named name l :
  URLSearchParams.get name l = snd <$> head (filter (λ kv, kv.1 = name) l).
Proof.
  induction l as [|[k v] l IH]; [done|]. rewrite filter_cons. simpl.
  case_bool_decide; case_decide; try done.
Qed.

(** A name that occurs once has the same value from either end. *)
Lemma get_reverse_once name value l :
  filter (λ kv, kv.1 = name) l = [(name, value)] →
  URLSearchParams.get name (reverse l) = Some value.
Proof.
  intros H. by rewrite get_head_named, filter_reverse, H.
Qed.

End SearchParams.

(** ** The filters object and the query of a request *)

Section Filters.

Implicit Types (k v : jsstring) (o ps : list (jsstring * jsstring)).

Lemma lookup_key_get k o : QueuePage.lookup_key k o = URLSearchParams.get k o.
Proof. induction o as [|[k' v] o IH]; [done|]. simpl. by rewrite IH. Qed.

Lemma lookup_key_None k o : QueuePage.lookup_key k o = None ↔ k ∉ o.*1.
Proof.
  induction o as [|[k' v] o IH]; simpl.
  - split; [intros _; apply not_elem_of_nil | done].
  - case_bool_decide as Hk.
    + subst k'. split; [done|]. intros H. destruct H. by left.
    + rewrite IH, not_elem_of_cons. split; [by intros ? | by intros [_ ?]].
Qed.

Lemma lookup_replace_eq k v o :
  is_Some (QueuePage.lookup_key k o) →
  QueuePage.lookup_key k (QueuePage.replace_value k v o) = Some v.
Proof.
  induction o as [|[k' v'] o IH]; simpl; [by intros [? ?]|].
  case_bool_decide as Hk; simpl.
  - by rewrite bool_decide_true.
  - intros H. rewrite bool_decide_false by done. by apply IH.
Qed.

Lemma lookup_replace_ne k k' v o :
  k' ≠ k →
  QueuePage.lookup_key k' (QueuePage.replace_value k v o)
  = QueuePage.lookup_key k' o.
Proof.
  intros Hne. induction o as [|[k1 v1] o IH]; simpl; [done|].
  case_bool_decide as H1; simpl; [|by rewrite IH].
  subst k1. by rewrite !bool_decide_false by congruence.
Qed.

Lemma replace_value_keys k v o :
  is_Some (QueuePage.lookup_key k o) →
  (QueuePage.replace_value k v o).*1 = o.*1.
Proof.
  induction o as [|[k1 v1] o IH]; [done|].
  cbn [QueuePage.replace_value QueuePage.lookup_key].
  case_bool_decide as H1; rewrite !fmap_cons; [by subst k1|].
  intros H. by rewrite IH.
Qed.

Lemma lookup_insert_index_eq i k v o :
  QueuePage.lookup_key k o = None →
  QueuePage.lookup_key k (QueuePage.insert_index i k v o) = Some v.
Proof.
  induction o as [|[k' v'] o IH]; simpl.
  - by rewrite bool_decide_true.
  - case_bool_decide as Hk; [done|]. intros H.
    destruct (QueuePage.array_index k') as [j|]; [destruct (j <? i)%N|];
      simpl; rewrite ?bool_decide_true by done; try done.
    rewrite bool_decide_false by done. by apply IH.
Qed.

Lemma lookup_insert_index_ne i k k' v o :
  k' ≠ k →
  QueuePage.lookup_key k' (QueuePage.insert_index i k v o)
  = QueuePage.lookup_key k' o.
Proof.
  intros Hne. induction o as [|[k1 v1] o IH]; simpl.
  - rewrite bool_decide_false; [done|]. congruence.
  - destruct (QueuePage.array_index k1) as [j|]; [destruct (j <? i)%N|];
      simpl; rewrite ?IH; try done;
      by rewrite (bool_decide_false (k = k')) by congruence.
Qed.

Lemma insert_index_keys i k v o :
  (QueuePage.insert_index i k v o).*1 ≡ₚ k :: o.*1.
Proof.
  induction o as [|[k1 v1] o IH]; [done|]. cbn [QueuePage.insert_index].
  destruct (QueuePage.array_index k1) as [j|]; [destruct (j <? i)%N|];
    try done.
  rewrite !fmap_cons, IH. apply Permutation_swap.
Qed.

Lemma lookup_snoc_eq k v o :
  QueuePage.lookup_key k o = None →
  QueuePage.lookup_key k (o ++ [(k, v)]) = Some v.
Proof.
  induction o as [|[k' v'] o IH]; simpl.
  - by rewrite bool_decide_true.
  - case_bool_decide; [done | apply IH].
Qed.

Lemma lookup_snoc_ne k k' v o :
  k' ≠ k →
  QueuePage.lookup_key k' (o ++ [(k, v)]) = QueuePage.lookup_key k' o.
Proof.
  intros Hne. induction o as [|[k1 v1] o IH]; simpl.
  - rewrite bool_decide_false; [done|]. congruence.
  - by rewrite IH.
Qed.

Lemma lookup_assign_eq k v o :
  k ≠ js "__proto__" →
  QueuePage.lookup_key k (QueuePage.assign k v o) = Some v.
Proof.
  intros Hk. unfold QueuePage.assign. rewrite bool_decide_false by done.
  destruct (QueuePage.lookup_key k o) eqn:Ho.
  - apply lookup_replace_eq. by rewrite Ho.
  - destruct (QueuePage.array_index k);
      [by apply lookup_insert_index_eq | by apply lookup_snoc_eq].
Qed.

Lemma lookup_assign_ne k k' v o :
  k' ≠ k →
  QueuePage.lookup_key k' (QueuePage.assign k v o) = QueuePage.lookup_key k' o.
Proof.
  intros Hne. unfold QueuePage.assign. case_bool_decide; [done|].
  destruct (QueuePage.lookup_key k o) eqn:Ho.
  - by apply lookup_replace_ne.
  - destruct (QueuePage.array_index k);
      [by apply lookup_insert_index_ne | by apply lookup_snoc_ne].
Qed.

(** An assignment leaves the names as they are, or adds the one name. *)
Lemma assign_keys k v o :
  (QueuePage.assign k v o).*1 = o.*1
  ∨ ((k ∉ o.*1) ∧ (QueuePage.assign k v o).*1 ≡ₚ k :: o.*1).
Proof.
  unfold QueuePage.assign. case_bool_decide; [by left|].
  destruct (QueuePage.lookup_key k o) eqn:Ho.
  - left. apply replace_value_keys. by rewrite Ho.
  - right. apply lookup_key_None in Ho. split; [done|].
    destruct (QueuePage.array_index k); [apply insert_index_keys|].
    rewrite fmap_app. simpl. by rewrite Permutation_app_comm.
Qed.

Lemma assign_NoDup k v o : NoDup o.*1 → NoDup (QueuePage.assign k v o).*1.
Proof.
  intros H. destruct (assign_keys k v o) as [->|[Hin ->]]; [done|].
  by apply NoDup_cons.
Qed.

(** The object built from the search parameters, one assignment each. *)
Abbreviation filters_object ps :=
  (foldl (λ o kv, QueuePage.assign kv.1 kv.2 o) [] ps).

Lemma filters_object_NoDup ps : NoDup (filters_object ps).*1.
Proof.
  induction ps as [|[k v] ps IH] using rev_ind.
  - apply NoDup_nil_2.
  - rewrite foldl_app. simpl. by apply assign_NoDup.
Qed.

(** A repeated search parameter ends up with its last value, and a parameter
    named [__proto__] with none. *)
Lemma filters_object_lookup k ps :
  QueuePage.lookup_key k (filters_object ps)
  = if bool_decide (k = js "__proto__") then None
    else URLSearchParams.get k (reverse ps).
Proof.
  induction ps as [|[k' v] ps IH] using rev_ind; [by case_bool_decide|].
  rewrite foldl_app, reverse_app, reverse_singleton.
  cbn [foldl fst snd app URLSearchParams.get].
  destruct (decide (k' = k)) as [->|Hne].
  - rewrite (bool_decide_true (k = k)) by done.
    case_bool_decide as Hp; [|by apply lookup_assign_eq].
    rewrite <- IH. unfold QueuePage.assign at 1.
    by rewrite bool_decide_true.
  - rewrite lookup_assign_ne, IH by congruence.
    by rewrite (bool_decide_false (k' = k)).
Qed.

End Filters.

Section Query.

Implicit Types (k v : jsstring) (o ps : list (jsstring * jsstring)).

Lemma query_string_keys (params : list (jsstring * Api.qvalue)) :
  (Api.query_string params).*1 `sublist_of` params.*1.
Proof.
  unfold Api.query_string. induction params as [|[k v] params IH]; [done|].
  cbn [omap list_omap fmap list_fmap fst snd].
  destruct v as [[|c s]|n|b|]; cbn; by constructor.
Qed.

Abbreviation filters_object ps :=
  (foldl (λ o kv, QueuePage.assign kv.1 kv.2 o) [] ps).

(** The query made of an object whose values are all strings. *)
Abbreviation query_of o := (Api.query_string (prod_map id Api.QStr <$> o)).

Lemma QStr_keys o : (prod_map id Api.QStr <$> o).*1 = o.*1.
Proof. induction o as [|[k v] o IH]; [done|]. rewrite !fmap_cons. by f_equal. Qed.

Lemma query_of_cons k v o :
  query_of ((k, v) :: o)
  = match v with [] => query_of o | _ :: _ => (k, v) :: query_of o end.
Proof. by destruct v. Qed.

Lemma query_of_get_absent k o :
  k ∉ o.*1 → URLSearchParams.get k (query_of o) = None.
Proof.
  induction o as [|[k1 v1] o IH]; [done|].
  intros H. cbn [fmap list_fmap fst] in H.
  apply not_elem_of_cons in H as [Hne Hin]. rewrite query_of_cons.
  destruct v1; [by apply IH|]. simpl.
  rewrite bool_decide_false by congruence. by apply IH.
Qed.

Lemma query_of_get k o :
  NoDup o.*1 →
  URLSearchParams.get k (query_of o)
  = match QueuePage.lookup_key k o with
    | Some (c :: v) => Some (c :: v)
    | _ => None
    end.
Proof.
  induction o as [|[k1 v1] o IH]; [done|].
  intros H. cbn [fmap list_fmap fst] in H.
  apply NoDup_cons in H as [Hin Hnd]. rewrite query_of_cons.
  cbn [QueuePage.lookup_key]. case_bool_decide as Hk.
  - subst k1. destruct v1; [by apply query_of_get_absent|].
    simpl. by rewrite bool_decide_true.
  - destruct v1; [by apply IH|]. simpl.
    rewrite bool_decide_false by done. by apply IH.
Qed.

Lemma query_of_values k v o : (k, v) ∈ query_of o → v ≠ [].
Proof.
  induction o as [|[k1 v1] o IH]; [by intros ?%elem_of_nil|].
  rewrite query_of_cons. destruct v1; [done|].
  intros [[= -> ->]|?]%elem_of_cons; [done | by apply IH].
Qed.

Lemma filters_of_NoDup ps : NoDup (QueuePage.filters_of ps).*1.
Proof.
  unfold QueuePage.filters_of.
  destruct (QueuePage.lookup_key (js "page") (filters_object ps))
    as [[|c v]|]; try apply assign_NoDup; apply filters_object_NoDup.
Qed.

Lemma filters_of_page ps :
  QueuePage.lookup_key (js "page") (QueuePage.filters_of ps)
  = Some match URLSearchParams.get (js "page") (reverse ps) with
         | Some (c :: v) => c :: v
         | _ => js "1"
         end.
Proof.
  assert (js "page" ≠ js "__proto__") as Hne by (intros H; discriminate H).
  pose proof (filters_object_lookup (js "page") ps) as Hl.
  rewrite bool_decide_false in Hl by done. rewrite <- Hl.
  unfold QueuePage.filters_of.
  destruct (QueuePage.lookup_key (js "page") (filters_object ps))
    as [[|c v]|] eqn:H;
    [by apply lookup_assign_eq | done | by apply lookup_assign_eq].
Qed.

Lemma filters_of_other k ps :
  k ≠ js "page" →
  QueuePage.lookup_key k (QueuePage.filters_of ps)
  = if bool_decide (k = js "__proto__") then None
    else URLSearchParams.get k (reverse ps).
Proof.
  intros Hk. unfold QueuePage.filters_of. rewrite <- filters_object_lookup.
  destruct (QueuePage.lookup_key (js "page") (filters_object ps))
    as [[|c v]|]; by rewrite ?lookup_assign_ne.
Qed.

(** The query of the request a page makes for the search parameters [ps] of
    its URL. *)
Lemma load_query ps :
  let q := query_of (QueuePage.filters_of ps) in
  NoDup q.*1
  ∧ (∀ k v, (k, v) ∈ q → v ≠ [])
  ∧ URLSearchParams.get (js "page") q
    = Some match URLSearchParams.get (js "page") (reverse ps) with
           | Some (c :: v) => c :: v
           | _ => js "1"
           end
  ∧ (∀ k, k ≠ js "page" →
       URLSearchParams.get k q
       = if bool_decide (k = js "__proto__") then None
         else match URLSearchParams.get k (reverse ps) with
              | Some (c :: v) => Some (c :: v)
              | _ => None
              end).
Proof.
  intros q. split; [|split; [|split]].
  - eapply sublist_NoDup; [|apply query_string_keys].
    rewrite QStr_keys. apply filters_of_NoDup.
  - intros k v. apply query_of_values.
  - subst q. rewrite query_of_get by apply filters_of_NoDup.
    rewrite filters_of_page.
    by destruct (URLSearchParams.get (js "page") (reverse ps)) as [[|]|].
  - intros k Hk. subst q. rewrite query_of_get by apply filters_of_NoDup.
    rewrite filters_of_other by done. by case_bool_decide.
Qed.

End Query.



Lemma js_inj : Inj (=) (=) js.
Proof.
  intros s1 s2 H. unfold js in H.
  assert (Inj (=) (=) N_of_ascii) as Hinj.
  { intros a b Hab.
    by rewrite <- (ascii_N_embedding a), <- (ascii_N_embedding b), Hab. }
  apply (list_fmap_eq_inj N_of_ascii Hinj) in H.
  by rewrite <- (string_of_list_ascii_of_string s1),
    <- (string_of_list_ascii_of_string s2), H.
Qed.

Lemma String_of_int_inj : Inj (=) (=) String_of_int.
Proof.
  intros a b H. unfold String_of_int in H.
  by apply js_inj, pretty_Z_inj in H.
Qed.

Lemma get_reverse_ext (k : jsstring) (l l' : list (jsstring * jsstring)) :
  filter (λ kv, kv.1 = k) l = filter (λ kv, kv.1 = k) l' →
  URLSearchParams.get k (reverse l) = URLSearchParams.get k (reverse l').
Proof. intros H. by rewrite !get_head_named, !filter_reverse, H. Qed.

Lemma isWellFormed_below (s : jsstring) :
  Forall (λ c, (c < 55296)%N) s → isWellFormed s = true.
Proof.
  induction 1 as [|c s Hc _ IH]; [done|]. cbn [isWellFormed].
  assert ((c <=? 56319) = true ∧ (55296 <=? c) = false
          ∧ (56320 <=? c) = false)%N as (H1 & -> & ->).
  { rewrite N.leb_le, !N.leb_gt. lia. }
  by rewrite IH.
Qed.

Lemma js_well_formed (s : string) : isWellFormed (js s) = true.
Proof.
  apply isWellFormed_below, Forall_fmap, Forall_forall. intros a _. simpl.
  pose proof (N_ascii_bounded a). lia.
Qed.

Lemma String_of_int_well_formed (n : Z) : isWellFormed (String_of_int n) = true.
Proof. apply js_well_formed. Qed.

(** X1. For the entries of an object whose names and strings are well formed
    and whose numbers are safe integers: a parameter of a list request is put
    in the query exactly when its value is neither [undefined] nor the empty
    string, as the string [String(v)]; so the number 0 and the boolean false
    are sent, as "0" and "false".  The query keeps the order of the
    parameters and has no name twice. *)
Theorem query_string_sends (params : list (jsstring * Api.qvalue)) :
  NoDup params.*1 →
  forallb Api.plain_entry params = true →
  (∀ k s, (k, s) ∈ Api.query_string params
          ↔ ∃ v, (k, v) ∈ params ∧ v ≠ Api.QUndefined ∧ v ≠ Api.QStr []
                 ∧ Api.String_of_qvalue v = Some s)
  ∧ (∀ k n, (k, Api.QNum n) ∈ params →
            (k, String_of_int n) ∈ Api.query_string params)
  ∧ (∀ k, (k, Api.QBool false) ∈ params →
          (k, js "false") ∈ Api.query_string params)
  ∧ (Api.query_string params).*1 `sublist_of` params.*1
  ∧ NoDup (Api.query_string params).*1
  ∧ (∀ k s, (k, s) ∈ Api.query_string params →
            isWellFormed k = true ∧ isWellFormed s = true).
Proof.
  intros Hnd Hplain.
  assert (∀ k s, (k, s) ∈ Api.query_string params
                 ↔ ∃ v, (k, v) ∈ params ∧ v ≠ Api.QUndefined
                        ∧ v ≠ Api.QStr []
                        ∧ Api.String_of_qvalue v = Some s) as H.
  { intros k s. unfold Api.query_string. rewrite list_elem_of_omap. split.
    - intros ([k' v] & Hin & Hv). exists v.
      destruct v as [[|c t]|n|b|]; simplify_eq/=; done.
    - intros (v & Hin & H1 & H2 & Hs). exists (k, v). split; [done|].
      destruct v as [[|c t]|n|b|]; simplify_eq/=; done. }
  split; [exact H|]. split; [|split; [|split; [apply query_string_keys|]]].
  - intros k n Hin. apply H. by exists (Api.QNum n).
  - intros k Hin. apply H. by exists (Api.QBool false).
  - split; [by eapply sublist_NoDup; [|apply query_string_keys]|].
    intros k s (v & Hin & _ & _ & Hs)%H.
    rewrite forallb_forall in Hplain.
    apply list_elem_of_In, Hplain in Hin. unfold Api.plain_entry in Hin.
    apply andb_prop in Hin as [Hk Hv]. split; [done|]. simpl in Hv.
    destruct v as [t|n|[|]|]; simplify_eq/=; [done| |done|done].
    apply String_of_int_well_formed.
Qed.

Lemma query_string_sends_witness :
  let params :=
    [(js "search", Api.QStr []); (js "page", Api.QNum 0);
     (js "tier", Api.QUndefined); (js "has_insurance", Api.QBool false)] in
  NoDup params.*1
  ∧ forallb Api.plain_entry params = true
  ∧ Api.query_string params
    = [(js "page", js "0"); (js "has_insurance", js "false")]
  ∧ (js "page", String_of_int 0) ∈ Api.query_string params.
Proof.
  intros params.
  assert (NoDup params.*1) as Hnd
    by (apply (bool_decide_unpack _); vm_compute; exact I).
  assert (forallb Api.plain_entry params = true) as Hplain by reflexivity.
  split; [exact Hnd|]. split; [exact Hplain|]. split; [reflexivity|].
  apply (query_string_sends params Hnd Hplain). by right; left.
Defined.

(** X2. The request the queue page and the patients page make for the search
    parameters of their URL, which are well-formed strings: a GET whose query
    has every name at most once and no empty value; it always has a page, the
    last [page] parameter of the URL when that is not empty and "1"
    otherwise; a parameter named [__proto__] is never sent, since the
    assignment to [filters] creates no property for it; and any other name is
    sent exactly when its last occurrence in the URL has a non-empty value,
    with that value. *)
Theorem load_requests_query (ps : list (jsstring * jsstring))
    (data : option json) (error : jsstring) :
  forallb (λ kv, isWellFormed kv.1 && isWellFormed kv.2) ps = true →
  ∃ q,
    Api.request_of
      (QueuePage.load_call
         {| QueuePage.params := ps; QueuePage.data := data;
            QueuePage.error := error |})
    = {| Api.req_method := Api.GET; Api.req_path := js "/api/queue";
         Api.req_query := Some q; Api.req_body := None |}
    ∧ Api.request_of (PatientsPage.load_call ps)
      = {| Api.req_method := Api.GET; Api.req_path := js "/api/patients";
           Api.req_query := Some q; Api.req_body := None |}
    ∧ NoDup q.*1
    ∧ (∀ k v, (k, v) ∈ q → v ≠ [])
    ∧ URLSearchParams.get (js "page") q
      = Some match URLSearchParams.get (js "page") (reverse ps) with
             | Some (c :: v) => c :: v
             | _ => js "1"
             end
    ∧ URLSearchParams.get (js "__proto__") q = None
    ∧ (∀ k, k ≠ js "page" → k ≠ js "__proto__" →
         URLSearchParams.get k q
         = match URLSearchParams.get k (reverse ps) with
           | Some (c :: v) => Some (c :: v)
           | _ => None
           end).
Proof.
  intros _.
  exists (Api.query_string (prod_map id Api.QStr <$> QueuePage.filters_of ps)).
  split; [reflexivity|]. split; [reflexivity|].
  destruct (load_query ps) as (H1 & H2 & H3 & H4).
  split; [done|]. split; [done|]. split; [done|]. split.
  - rewrite H4 by (intros H; discriminate H). by rewrite bool_decide_true.
  - intros k Hk Hp. rewrite H4 by done. by rewrite bool_decide_false.
Qed.

Lemma load_requests_query_witness :
  let ps :=
    [(js "status", js "pending"); (js "__proto__", js "x");
     (js "7", js "a"); (js "status", js "booked"); (js "tier", [])] in
  forallb (λ kv, isWellFormed kv.1 && isWellFormed kv.2) ps = true
  ∧ QueuePage.filters_of ps
    = [(js "7", js "a"); (js "status", js "booked"); (js "tier", []);
       (js "page", js "1")]
  ∧ ∃ q,
      Api.request_of
        (QueuePage.load_call
           {| QueuePage.params := ps; QueuePage.data := None;
              QueuePage.error := [] |})
      = {| Api.req_method := Api.GET; Api.req_path := js "/api/queue";
           Api.req_query := Some q; Api.req_body := None |}
      ∧ Api.request_of (PatientsPage.load_call ps)
        = {| Api.req_method := Api.GET; Api.req_path := js "/api/patients";
             Api.req_query := Some q; Api.req_body := None |}
      ∧ NoDup q.*1
      ∧ (∀ k v, (k, v) ∈ q → v ≠ [])
      ∧ URLSearchParams.get (js "page") q
        = Some match URLSearchParams.get (js "page") (reverse ps) with
               | Some (c :: v) => c :: v
               | _ => js "1"
               end
      ∧ URLSearchParams.get (js "__proto__") q = None
      ∧ (∀ k, k ≠ js "page" → k ≠ js "__proto__" →
           URLSearchParams.get k q
           = match URLSearchParams.get k (reverse ps) with
             | Some (c :: v) => Some (c :: v)
             | _ => None
             end).
Proof.
  intros ps. split; [reflexivity|]. split; [reflexivity|].
  apply (load_requests_query ps None []). reflexivity.
Defined.

Lemma FilterBar_push_params_aux (key value : jsstring)
    (ps : list (jsstring * jsstring)) :
  key ≠ js "page" →
  filter (λ kv, kv.1 = js "page") (FilterBar.push key value ps)
  = [(js "page", js "1")]
  ∧ filter (λ kv, kv.1 = key) (FilterBar.push key value ps)
    = (if truthy value then [(key, value)] else [])
  ∧ (∀ k, k ≠ key → k ≠ js "page" →
       filter (λ kv, kv.1 = k) (FilterBar.push key value ps)
       = filter (λ kv, kv.1 = k) ps).
Proof.
  intros Hkey. unfold FilterBar.push.
  split; [apply named_set_eq|]. split.
  - rewrite named_set_ne by done.
    destruct (truthy value); [apply named_set_eq | apply named_delete_eq].
  - intros k Hk Hp. rewrite named_set_ne by done.
    destruct (truthy value); [by apply named_set_ne | by apply named_delete_ne].
Qed.

(** X3. [push] of the filter bar, for a key other than [page]: the new URL
    has exactly one [page] parameter, "1"; it has the key exactly once with
    the new value, or not at all when the value is empty; every other
    parameter keeps its entries. *)
Theorem FilterBar_push_params (key value : jsstring)
    (ps : list (jsstring * jsstring)) :
  key ≠ js "page" →
  let ps' := FilterBar.push key value ps in
  filter (λ kv, kv.1 = js "page") ps' = [(js "page", js "1")]
  ∧ filter (λ kv, kv.1 = key) ps'
    = (if truthy value then [(key, value)] else [])
  ∧ URLSearchParams.get key ps' = or_undefined value
  ∧ (∀ k, k ≠ key → k ≠ js "page" →
       filter (λ kv, kv.1 = k) ps' = filter (λ kv, kv.1 = k) ps).
Proof.
  intros Hkey ps'. subst ps'. unfold FilterBar.push, or_undefined.
  split; [apply named_set_eq|].
  split; [|split].
  - rewrite named_set_ne by done.
    destruct (truthy value); [apply named_set_eq | apply named_delete_eq].
  - rewrite get_set_ne by done.
    destruct (truthy value); [apply get_set_eq | apply get_delete_eq].
  - intros k Hk Hp. rewrite named_set_ne by done.
    destruct (truthy value); [by apply named_set_ne | by apply named_delete_ne].
Qed.

Lemma FilterBar_push_params_witness :
  let ps' :=
    FilterBar.push (js "tier") (js "warm")
      [(js "search", js "ann"); (js "page", js "3"); (js "tier", js "cold")] in
  filter (λ kv, kv.1 = js "page") ps' = [(js "page", js "1")]
  ∧ filter (λ kv, kv.1 = js "tier") ps'
    = (if truthy (js "warm") then [(js "tier", js "warm")] else [])
  ∧ URLSearchParams.get (js "tier") ps' = or_undefined (js "warm")
  ∧ (∀ k, k ≠ js "tier" → k ≠ js "page" →
       filter (λ kv, kv.1 = k) ps'
       = filter (λ kv, kv.1 = k)
           [(js "search", js "ann"); (js "page", js "3");
            (js "tier", js "cold")]).
Proof. apply FilterBar_push_params. intros H. discriminate H. Defined.

(** The query of the patients request for the search parameters [ps]. *)
Abbreviation patients_query ps :=
  (Api.query_string (prod_map id Api.QStr <$> QueuePage.filters_of ps)).

Lemma patients_request ps :
  Api.req_query (Api.request_of (PatientsPage.load_call ps))
  = Some (patients_query ps).
Proof. reflexivity. Qed.

(** X4. After a change in the filter bar, for a key other than [page], the
    next request of the patients page asks for page 1, carries the key with
    the new value (or not at all when the value is empty, or when the key is
    [__proto__], which the filters object never holds), and carries every
    other parameter as the request before did. *)
Theorem FilterBar_push_then_load (key value : jsstring)
    (ps : list (jsstring * jsstring)) :
  key ≠ js "page" →
  ∃ q q',
    Api.req_query (Api.request_of (PatientsPage.load_call ps)) = Some q
    ∧ Api.req_query
        (Api.request_of
           (PatientsPage.load_call (FilterBar.push key value ps))) = Some q'
    ∧ URLSearchParams.get (js "page") q' = Some (js "1")
    ∧ URLSearchParams.get key q'
      = (if bool_decide (key = js "__proto__") then None
         else or_undefined value)
    ∧ (∀ k, k ≠ key → k ≠ js "page" →
         URLSearchParams.get k q' = URLSearchParams.get k q).
Proof.
  intros Hkey. exists (patients_query ps).
  exists (patients_query (FilterBar.push key value ps)).
  split; [done|]. split; [done|].
  destruct (FilterBar_push_params_aux key value ps Hkey) as (Hp & Hk & Ho).
  destruct (load_query (FilterBar.push key value ps)) as (_ & _ & Hq1 & Hq2).
  destruct (load_query ps) as (_ & _ & _ & Hq3).
  split; [|split].
  - rewrite Hq1. by rewrite (get_reverse_once _ _ _ Hp).
  - rewrite Hq2 by done. case_bool_decide; [done|]. unfold or_undefined.
    destruct value as [|c v]; simpl in *.
    + by rewrite get_head_named, filter_reverse, Hk.
    + by rewrite (get_reverse_once _ _ _ Hk).
  - intros k H1 H2. rewrite Hq2, Hq3 by done.
    by rewrite (get_reverse_ext _ _ _ (Ho k H1 H2)).
Qed.

Lemma FilterBar_push_then_load_witness :
  ∃ q q',
    Api.req_query
      (Api.request_of
         (PatientsPage.load_call
            [(js "search", js "ann"); (js "page", js "3")])) = Some q
    ∧ Api.req_query
        (Api.request_of
           (PatientsPage.load_call
              (FilterBar.push (js "tier") (js "warm")
                 [(js "search", js "ann"); (js "page", js "3")]))) = Some q'
    ∧ URLSearchParams.get (js "page") q' = Some (js "1")
    ∧ URLSearchParams.get (js "tier") q'
      = (if bool_decide (js "tier" = js "__proto__") then None
         else or_undefined (js "warm"))
    ∧ (∀ k, k ≠ js "tier" → k ≠ js "page" →
         URLSearchParams.get k q' = URLSearchParams.get k q).
Proof. apply FilterBar_push_then_load. intros H. discriminate H. Defined.


(** X6. The insurance checkbox reads back what it wrote: after a change to
    checked or unchecked, the URL makes the checkbox start in that state.
    Unchecking removes the parameter instead of sending "false", and the next
    request carries [has_insurance] exactly when the box is checked. *)
Theorem insurance_toggle_round_trip (checked : bool)
    (ps : list (jsstring * jsstring)) :
  let ps' := FilterBar.toggle_insurance checked ps in
  FilterBar.insurance_checked ps' = checked
  ∧ URLSearchParams.get (js "has_insurance") ps'
    = (if checked then Some (js "true") else None)
  ∧ ∃ q', Api.req_query (Api.request_of (PatientsPage.load_call ps')) = Some q'
          ∧ URLSearchParams.get (js "has_insurance") q'
            = (if checked then Some (js "true") else None).
Proof.
  intros ps'. subst ps'. unfold FilterBar.toggle_insurance.
  assert (js "has_insurance" ≠ js "page") as Hne by (intros H; discriminate H).
  destruct (FilterBar_push_params_aux (js "has_insurance")
              (if checked then js "true" else []) ps Hne) as (_ & Hk & _).
  assert (URLSearchParams.get (js "has_insurance")
            (FilterBar.push (js "has_insurance")
               (if checked then js "true" else []) ps)
          = (if checked then Some (js "true") else None)) as Hget.
  { rewrite get_head_named, Hk. by destruct checked. }
  split; [|split; [done|]].
  - unfold FilterBar.insurance_checked. rewrite Hget. by destruct checked.
  - eexists. split; [reflexivity|].
    destruct (load_query
                (FilterBar.push (js "has_insurance")
                   (if checked then js "true" else []) ps))
      as (_ & _ & _ & Hq).
    rewrite Hq by done.
    rewrite bool_decide_false by (intros H; discriminate H).
    rewrite get_head_named, filter_reverse, Hk. by destruct checked.
Qed.

(** ** The pagination bar and the message log *)






(** ** The sidebar *)

Lemma active_items_cases (pathname : jsstring) :
  Sidebar.active_items pathname = []
  ∨ ∃ item, Sidebar.active_items pathname = [item].
Proof.
  destruct (starts_with (js "/patients") pathname) eqn:H1.
  { apply starts_with_drop in H1. set (r := drop _ _) in H1. clearbody r.
    subst pathname. right. by eexists. }
  destruct (starts_with (js "/queue") pathname) eqn:H2.
  { apply starts_with_drop in H2. set (r := drop _ _) in H2. clearbody r.
    subst pathname. right. by eexists. }
  destruct (starts_with (js "/campaigns") pathname) eqn:H3.
  { apply starts_with_drop in H3. set (r := drop _ _) in H3. clearbody r.
    subst pathname. right. by eexists. }
  destruct (starts_with (js "/agent") pathname) eqn:H4.
  { apply starts_with_drop in H4. set (r := drop _ _) in H4. clearbody r.
    subst pathname. right. by eexists. }
  unfold Sidebar.active_items, Sidebar.nav, Sidebar.active.
  cbn [List.filter fst]. rewrite H1, H2, H3, H4.
  repeat (rewrite (bool_decide_false (_ = js "/")) by (intros H; discriminate H)).
  rewrite (bool_decide_true (js "/" = js "/")) by done.
  case_bool_decide; [right; by eexists | by left].
Qed.

(** X9. For every pathname the sidebar highlights at most one entry, and an
    entry that is highlighted is the only one: the dashboard for "/" alone,
    any other entry for the pathnames that start with its href. *)
Theorem Sidebar_one_active (pathname : jsstring) :
  (length (Sidebar.active_items pathname) ≤ 1)%nat
  ∧ (∀ item, item ∈ Sidebar.nav → Sidebar.active pathname item = true →
             Sidebar.active_items pathname = [item])
  ∧ (Sidebar.active pathname (js "/", js "Dashboard") = true
     ↔ pathname = js "/").
Proof.
  split; [|split].
  - destruct (active_items_cases pathname) as [->|[item ->]]; simpl; lia.
  - intros item Hin Hact.
    assert (In item (Sidebar.active_items pathname)) as Hf.
    { apply filter_In. split; [by apply list_elem_of_In | done]. }
    destruct (active_items_cases pathname) as [H|[item' H]]; rewrite H in Hf.
    + destruct Hf.
    + destruct Hf as [->|[]]. done.
  - unfold Sidebar.active. cbn [fst].
    rewrite (bool_decide_true (js "/" = js "/")) by done.
    apply bool_decide_eq_true.
Qed.

(** ** Trimmed text *)

Section Trim.

Implicit Types (s t : jsstring) (c : N).

Lemma trimStart_head s c t :
  trimStart s = c :: t → is_js_whitespace c = false.
Proof.
  induction s as [|x s IH]; [done|]. simpl.
  destruct (is_js_whitespace x) eqn:Hx; [done|]. by intros [= <- _].
Qed.

Lemma trimStart_fixed c t :
  is_js_whitespace c = false → trimStart (c :: t) = c :: t.
Proof. intros H. simpl. by rewrite H. Qed.

(** Leading whitespace goes, a last code unit that is not whitespace stays. *)
Lemma trimStart_snoc s c :
  is_js_whitespace c = false → ∃ s', trimStart (s ++ [c]) = s' ++ [c].
Proof.
  intros Hc. induction s as [|x s IH]; simpl.
  - rewrite Hc. by exists [].
  - destruct (is_js_whitespace x); [done|]. by exists (x :: s).
Qed.

(** A trimmed text is empty, or starts and ends with a code unit that is not
    whitespace. *)
Lemma trim_ends s :
  trim s = []
  ∨ ∃ c t d, trim s = c :: t ∧ is_js_whitespace c = false
             ∧ last (trim s) = Some d ∧ is_js_whitespace d = false.
Proof.
  unfold trim, trimEnd.
  destruct (trimStart s) as [|c t] eqn:Hs; [by left|].
  pose proof (trimStart_head _ _ _ Hs) as Hc.
  rewrite reverse_cons.
  destruct (trimStart_snoc (reverse t) c Hc) as [s' Hs'].
  assert (reverse (trimStart (reverse t ++ [c])) = c :: reverse s') as E.
  { by rewrite Hs', reverse_app. }
  right. exists c, (reverse s').
  assert (∃ d, last (reverse (trimStart (reverse t ++ [c]))) = Some d
               ∧ is_js_whitespace d = false) as (d & Hl & Hd).
  { rewrite last_reverse.
    destruct (trimStart (reverse t ++ [c])) as [|d u] eqn:Hu.
    - by destruct s'.
    - exists d. split; [done|]. by eapply trimStart_head. }
  exists d. by rewrite <- E.
Qed.

Lemma trim_idempotent s : trim (trim s) = trim s.
Proof.
  destruct (trim_ends s) as [->|(c & t & d & Hc & Hw & Hl & Hd)]; [done|].
  unfold trim at 1. rewrite Hc, (trimStart_fixed c t Hw), <- Hc.
  unfold trimEnd.
  destruct (reverse (trim s)) as [|x r] eqn:Hr.
  { by rewrite <- (reverse_involutive (trim s)), Hr. }
  assert (x = d) as ->.
  { rewrite <- (reverse_involutive (trim s)), Hr, last_reverse in Hl.
    by injection Hl. }
  by rewrite (trimStart_fixed d r Hd), <- Hr, reverse_involutive.
Qed.

End Trim.

(** ** What the forms send *)

(** X10. Whenever the campaign form calls [createCampaign], the name it sends
    is the trimmed name of the form: not empty, with no whitespace at either
    end.  The template is sent as typed and is not blank; an unset tier is
    left out rather than sent empty; an email campaign carries its subject,
    which is not blank, and an sms campaign carries none, whatever the subject
    field holds. *)
Theorem createCampaign_payload (created : outcome Api.Campaign)
    (st : NewCampaignPage.State) (data : Api.CampaignData) :
  NewCampaignPage.Call (Api.createCampaign data)
    ∈ (NewCampaignPage.handleSubmit created st).2 →
  Api.cd_name data = trim (NewCampaignPage.name st)
  ∧ trim (Api.cd_name data) = Api.cd_name data
  ∧ (∃ c t d, Api.cd_name data = c :: t
              ∧ is_js_whitespace c = false
              ∧ last (Api.cd_name data) = Some d
              ∧ is_js_whitespace d = false)
  ∧ Api.cd_message_template data = NewCampaignPage.messageTemplate st
  ∧ trim (Api.cd_message_template data) ≠ []
  ∧ Api.cd_tier_filter data ≠ Some []
  ∧ match NewCampaignPage.channel st with
    | NewCampaignPage.email =>
        Api.cd_subject data = Some (NewCampaignPage.subject st)
        ∧ trim (NewCampaignPage.subject st) ≠ []
    | NewCampaignPage.sms => Api.cd_subject data = None
    end.
Proof.
  unfold NewCampaignPage.handleSubmit.
  destruct (trim (NewCampaignPage.name st)) as [|x n] eqn:Hn; simpl;
    [by intros ?%elem_of_nil|].
  destruct (trim (NewCampaignPage.messageTemplate st)) as [|y m] eqn:Hm; simpl;
    [by intros ?%elem_of_nil|].
  assert (data = NewCampaignPage.campaign_data st →
          Api.cd_name data = trim (NewCampaignPage.name st)
          ∧ trim (Api.cd_name data) = Api.cd_name data
          ∧ (∃ c t d, Api.cd_name data = c :: t
                      ∧ is_js_whitespace c = false
                      ∧ last (Api.cd_name data) = Some d
                      ∧ is_js_whitespace d = false)
          ∧ Api.cd_message_template data = NewCampaignPage.messageTemplate st
          ∧ trim (Api.cd_message_template data) ≠ []
          ∧ Api.cd_tier_filter data ≠ Some []) as Hmain.
  { intros ->. cbn [NewCampaignPage.campaign_data Api.cd_name
      Api.cd_message_template Api.cd_tier_filter].
    split; [done|]. split; [apply trim_idempotent|]. split.
    - destruct (trim_ends (NewCampaignPage.name st))
        as [H|(c & t & d & H1 & H2 & H3 & H4)]; [congruence|].
      by exists c, t, d.
    - split; [done|]. split; [by rewrite Hm|].
      unfold or_undefined. by destruct (NewCampaignPage.tierFilter st). }
  destruct (NewCampaignPage.channel st) eqn:Hc; simpl.
  - intros Hin.
    assert (data = NewCampaignPage.campaign_data st) as Hd.
    { destruct created; simpl in Hin.
      - apply elem_of_cons in Hin as [[= ->]|Hin%list_elem_of_singleton];
          [done | discriminate Hin].
      - by apply list_elem_of_singleton in Hin as [= ->]. }
    destruct (Hmain Hd) as (? & ? & ? & ? & ? & ?).
    repeat (split; [done|]). subst data.
    unfold NewCampaignPage.campaign_data. simpl. by rewrite Hc.
  - destruct (trim (NewCampaignPage.subject st)) as [|z u] eqn:Hs; simpl;
      [by intros ?%elem_of_nil|].
    intros Hin.
    assert (data = NewCampaignPage.campaign_data st) as Hd.
    { destruct created; simpl in Hin.
      - apply elem_of_cons in Hin as [[= ->]|Hin%list_elem_of_singleton];
          [done | discriminate Hin].
      - by apply list_elem_of_singleton in Hin as [= ->]. }
    destruct (Hmain Hd) as (? & ? & ? & ? & ? & ?).
    repeat (split; [done|]). subst data.
    unfold NewCampaignPage.campaign_data. simpl. by rewrite Hc.
Qed.

Lemma createCampaign_payload_witness :
  let st :=
    {| NewCampaignPage.name := js "  Spring outreach ";
       NewCampaignPage.channel := NewCampaignPage.sms;
       NewCampaignPage.tierFilter := [];
       NewCampaignPage.scoreMin := 50%float;
       NewCampaignPage.messageTemplate := js "Hi {called_name}";
       NewCampaignPage.subject := js "We miss you at Lucid Clinic!";
       NewCampaignPage.submitting := false;
       NewCampaignPage.error := [] |} in
  let data := NewCampaignPage.campaign_data st in
  Api.cd_name data = trim (NewCampaignPage.name st)
  ∧ trim (Api.cd_name data) = Api.cd_name data
  ∧ (∃ c t d, Api.cd_name data = c :: t
              ∧ is_js_whitespace c = false
              ∧ last (Api.cd_name data) = Some d
              ∧ is_js_whitespace d = false)
  ∧ Api.cd_message_template data = NewCampaignPage.messageTemplate st
  ∧ trim (Api.cd_message_template data) ≠ []
  ∧ Api.cd_tier_filter data ≠ Some []
  ∧ Api.cd_subject data = None.
Proof.
  intros st data.
  apply (createCampaign_payload (Throws (new_Error (js "offline"))) st data).
  apply list_elem_of_here.
Defined.

(** X11. For the task [update_record] the agent form sends the account id and
    a [fields] object that holds only the fields the user filled in: each
    member is [email], [cell_phone] or [address], at most once, and its value
    is the trimmed text of its input, not empty and with no whitespace at
    either end.  With all three inputs blank the object is empty, and the
    task is submitted all the same. *)
Theorem update_record_fields (st : AgentPage.State) :
  AgentPage.selectedTask st = js "update_record" →
  ∃ fields,
    AgentPage.buildParams st
    = [(js "patient_account_id", Some (JStr (AgentPage.accountId st)));
       (js "fields", Some (JObj fields))]
    ∧ NoDup fields.*1
    ∧ (∀ k v, (k, v) ∈ fields →
         ∃ input,
           (k, input) ∈ [(js "email", AgentPage.updateEmail st);
                         (js "cell_phone", AgentPage.updatePhone st);
                         (js "address", AgentPage.updateAddress st)]
           ∧ v = JStr (trim input) ∧ trim input ≠ []
           ∧ trim (trim input) = trim input)
    ∧ (∀ k input,
         (k, input) ∈ [(js "email", AgentPage.updateEmail st);
                       (js "cell_phone", AgentPage.updatePhone st);
                       (js "address", AgentPage.updateAddress st)] →
         trim input ≠ [] → (k, JStr (trim input)) ∈ fields)
    ∧ (trim (AgentPage.updateEmail st) = [] →
       trim (AgentPage.updatePhone st) = [] →
       trim (AgentPage.updateAddress st) = [] → fields = []).
Proof.
  intros Htask. unfold AgentPage.buildParams. rewrite Htask.
  rewrite (bool_decide_false (js "update_record" = js "sync_patients"))
    by (intros H; discriminate H).
  rewrite (bool_decide_false (js "update_record" = js "book_appointment"))
    by (intros H; discriminate H).
  rewrite (bool_decide_true (js "update_record" = js "update_record")) by done.
  eexists. split; [reflexivity|]. unfold AgentPage.field.
  destruct (trim (AgentPage.updateEmail st)) as [|e1 e] eqn:He;
    destruct (trim (AgentPage.updatePhone st)) as [|p1 p] eqn:Hp;
    destruct (trim (AgentPage.updateAddress st)) as [|a1 a] eqn:Ha;
    cbn [truthy app].
  all: split; [apply (bool_decide_unpack _); reflexivity|].
  all: split;
    [intros k v Hin;
     repeat (apply elem_of_cons in Hin as [[= -> ->]|Hin]);
     try (by apply elem_of_nil in Hin)|].
  all: try (eexists; split;
    [first [apply list_elem_of_here
           | apply list_elem_of_further, list_elem_of_here
           | do 2 apply list_elem_of_further; apply list_elem_of_here]|];
    rewrite ?He, ?Hp, ?Ha; split; [reflexivity|]; split; [done|];
    rewrite <- ?He, <- ?Hp, <- ?Ha; apply trim_idempotent).
  all: split;
    [intros k input Hin Hne;
     repeat (apply elem_of_cons in Hin as [[= -> ->]|Hin]);
     try (by apply elem_of_nil in Hin);
     rewrite ?He, ?Hp, ?Ha in *; try done;
     first [apply list_elem_of_here
           | apply list_elem_of_further, list_elem_of_here
           | do 2 apply list_elem_of_further; apply list_elem_of_here]
    | done].
Qed.

Lemma update_record_fields_witness :
  ∃ fields,
    AgentPage.buildParams
      {| AgentPage.error := []; AgentPage.submitting := false;
         AgentPage.selectedTask := js "update_record";
         AgentPage.accountId := js "6211C"; AgentPage.apptDate := [];
         AgentPage.apptTime := []; AgentPage.provider := [];
         AgentPage.updateEmail := js " pat@example.com ";
         AgentPage.updatePhone := js "   "; AgentPage.updateAddress := [] |}
    = [(js "patient_account_id", Some (JStr (js "6211C")));
       (js "fields", Some (JObj fields))]
    ∧ fields = [(js "email", JStr (js "pat@example.com"))].
Proof.
  destruct (update_record_fields
    {| AgentPage.error := []; AgentPage.submitting := false;
       AgentPage.selectedTask := js "update_record";
       AgentPage.accountId := js "6211C"; AgentPage.apptDate := [];
       AgentPage.apptTime := []; AgentPage.provider := [];
       AgentPage.updateEmail := js " pat@example.com ";
       AgentPage.updatePhone := js "   "; AgentPage.updateAddress := [] |}
    eq_refl) as (fields & Hf & _).
  exists fields. split; [exact Hf|].
  by injection Hf as <-.
Defined.

(** ** Errors on the queue and agent pages *)

(** X12. On the queue page nothing but a failing request writes the error:
    through any sequence of reloads and status changes whose requests all
    succeed, the error text that was on screen stays on screen unchanged, and
    so do the search parameters. *)
Theorem QueueSession_error_stays (evs : list QueueSession.Event)
    (st : QueuePage.State) :
  forallb QueueSession.succeeded evs = true →
  QueuePage.error (QueueSession.run evs st) = QueuePage.error st
  ∧ QueuePage.params (QueueSession.run evs st) = QueuePage.params st.
Proof.
  unfold QueueSession.run. revert st.
  induction evs as [|ev evs IH]; intros st; [done|].
  cbn [forallb foldl]. intros [Hev Hevs]%andb_true_iff.
  destruct (IH (QueueSession.step st ev) Hevs) as [-> ->].
  destruct ev as [[d|e]|[u|e] [d|e'] id s]; try done.
Qed.

Lemma QueueSession_error_stays_witness :
  let st :=
    {| QueuePage.params := [(js "status", js "pending")];
       QueuePage.data := None;
       QueuePage.error := js "API error 500: boom" |} in
  let evs :=
    [QueueSession.Load (Returns JNull);
     QueueSession.StatusChange (Returns JNull) (Returns JNull) 5
       (js "contacted")] in
  QueuePage.error (QueueSession.run evs st) = js "API error 500: boom"
  ∧ QueuePage.params (QueueSession.run evs st) = [(js "status", js "pending")].
Proof.
  intros st evs. apply (QueueSession_error_stays evs st). reflexivity.
Defined.

(** X13. An HTTP error reaches the banner word for word: when the server
    answers a status change, a queue load or an agent task with a response
    that is not ok, the page shows "API error ", the status code, ": " and the
    body text, not its fallback text; the status change makes no reload, and
    the queue page keeps the data it had. *)
Theorem http_error_shown (res : Api.Response) :
  Api.res_ok res = false →
  let shown :=
    js "API error " ++ js (pretty (Api.res_status res)) ++ js ": "
    ++ Api.res_text res in
  (∀ queue id newStatus st,
     QueuePage.handleStatusChange (Api.fetchApi res) queue id newStatus st
     = ({| QueuePage.params := QueuePage.params st;
           QueuePage.data := QueuePage.data st;
           QueuePage.error := shown |},
        [Api.updateQueueStatus id newStatus]))
  ∧ (∀ st,
       QueuePage.load (Api.fetchApi res) st
       = {| QueuePage.params := QueuePage.params st;
            QueuePage.data := QueuePage.data st;
            QueuePage.error := shown |})
  ∧ (∀ st,
       AgentPage.error (AgentPage.handleSubmit (Api.fetchApi res) st).1 = shown
       ∧ AgentPage.submitting (AgentPage.handleSubmit (Api.fetchApi res) st).1
         = false
       ∧ (AgentPage.handleSubmit (Api.fetchApi res) st).2
         = [AgentPage.submit_call st]).
Proof.
  intros Hok shown. unfold Api.fetchApi. rewrite Hok. by simpl.
Qed.

Lemma http_error_shown_witness :
  QueuePage.error
    (QueuePage.load
       (Api.fetchApi
          {| Api.res_ok := false; Api.res_status := 503%N;
             Api.res_text := js "down"; Api.res_json := Returns JNull |})
       {| QueuePage.params := []; QueuePage.data := Some JNull;
          QueuePage.error := [] |})
  = js "API error 503: down".
Proof.
  pose proof (http_error_shown
    {| Api.res_ok := false; Api.res_status := 503%N;
       Api.res_text := js "down"; Api.res_json := Returns JNull |} eq_refl)
    as (_ & H & _).
  by rewrite H.
Defined.

(** ** Requests *)

(** X14. Every page event makes at most one request that writes, and makes it
    first: each request after the first one of an event is a GET without a
    body. *)
Theorem writes_come_first (ev : Frontend.PageEvent) :
  Forall (λ c, Api.req_method (Api.request_of c) = Api.GET
               ∧ Api.req_body (Api.request_of c) = None)
    (tail (Frontend.calls_of ev)).
Proof.
  destruct ev; cbn [Frontend.calls_of].
  1-4, 6, 8-12: by repeat constructor.
  - unfold QueuePage.handleStatusChange.
    destruct updated; by repeat constructor.
  - unfold AgentPage.handleSubmit. destruct submitted; by repeat constructor.
  - unfold CampaignDetailPage.click_send, CampaignDetailPage.handleSend.
    destruct (CampaignDetailPage.campaign st) as [c|]; [|by constructor].
    destruct (CampaignDetailPage.send_button_offered c
              && negb (CampaignDetailPage.sending st)); [|by constructor].
    destruct sent; by repeat constructor.
  - unfold NewCampaignPage.handleSubmit.
    repeat (case_match; cbn [snd Frontend.created_calls omap list_omap tail]);
      by repeat constructor.
Qed.

(** X15. The requests that address one record name it unambiguously when
    the ids are safe integers, which are printed in decimal: for each of
    these functions, two calls that give the same request were given the same
    id (and, for [updateQueueStatus], the same status). *)
Theorem id_requests_injective (a b : Z) :
  isSafeInteger a = true → isSafeInteger b = true →
  (Api.request_of (Api.getPatient a) = Api.request_of (Api.getPatient b)
   → a = b)
  ∧ (∀ s t, Api.request_of (Api.updateQueueStatus a s)
            = Api.request_of (Api.updateQueueStatus b t) → a = b ∧ s = t)
  ∧ (Api.request_of (Api.getAgentSession a)
     = Api.request_of (Api.getAgentSession b) → a = b)
  ∧ (Api.request_of (Api.getSessionScreenshots a)
     = Api.request_of (Api.getSessionScreenshots b) → a = b)
  ∧ (Api.request_of (Api.confirmAgentTask a)
     = Api.request_of (Api.confirmAgentTask b) → a = b)
  ∧ (Api.request_of (Api.cancelAgentTask a)
     = Api.request_of (Api.cancelAgentTask b) → a = b)
  ∧ (Api.request_of (Api.getCampaign a) = Api.request_of (Api.getCampaign b)
     → a = b)
  ∧ (Api.request_of (Api.sendCampaign a) = Api.request_of (Api.sendCampaign b)
     → a = b).
Proof.
  intros _ _.
  assert (∀ pre post, pre ++ String_of_int a ++ post
                      = pre ++ String_of_int b ++ post → a = b) as Hmid.
  { intros pre post H. apply app_inv_head, app_inv_tail in H.
    by apply String_of_int_inj. }
  assert (∀ pre, pre ++ String_of_int a = pre ++ String_of_int b → a = b)
    as Hend.
  { intros pre H. apply app_inv_head in H. by apply String_of_int_inj. }
  assert (∀ r1 r2 : Api.Request, r1 = r2 → Api.req_path r1 = Api.req_path r2)
    as Hpath by by intros r1 r2 ->.
  split; [intros H%Hpath; cbn [Api.request_of Api.get Api.post Api.req_path] in H;
    by eapply Hend|].
  split.
  { intros s t H. pose proof (Hpath _ _ H) as Hp.
    apply (f_equal Api.req_body) in H.
    cbn [Api.request_of Api.req_path Api.req_body] in H, Hp.
    split; [by eapply Hmid|]. by injection H. }
  split; [intros H%Hpath; cbn [Api.request_of Api.get Api.post Api.req_path] in H;
    by eapply Hend|].
  split; [intros H%Hpath; cbn [Api.request_of Api.get Api.post Api.req_path] in H;
    by eapply Hmid|].
  split; [intros H%Hpath; cbn [Api.request_of Api.get Api.post Api.req_path] in H;
    by eapply Hmid|].
  split; [intros H%Hpath; cbn [Api.request_of Api.get Api.post Api.req_path] in H;
    by eapply Hmid|].
  split; [intros H%Hpath; cbn [Api.request_of Api.get Api.post Api.req_path] in H;
    by eapply Hend|].
  intros H%Hpath. cbn [Api.request_of Api.get Api.post Api.req_path] in H.
  by eapply Hmid.
Qed.

Lemma id_requests_injective_witness :
  isSafeInteger 7 = true ∧ isSafeInteger 70 = true
  ∧ Api.request_of (Api.getCampaign 7) ≠ Api.request_of (Api.getCampaign 70)
  ∧ Api.request_of (Api.sendCampaign 7) ≠ Api.request_of (Api.sendCampaign 70).
Proof.
  split; [reflexivity|]. split; [reflexivity|].
  pose proof (id_requests_injective 7 70 eq_refl eq_refl)
    as (_ & _ & _ & _ & _ & _ & Hget & Hsend).
  split; intros H; [apply Hget in H | apply Hsend in H]; discriminate H.
Defined.
